(** * gotabulate: the table layout engine of [tabulate.go]

    A shallow embedding of the layout code of the Go package [gotabulate]
    (width computation, terminal autosizing, cell wrapping, row and line
    assembly, [Render]) and the properties of it that the design document
    states.

    Conventions of the embedding.

    - A Go [string] is taken to be valid UTF-8 and is represented by the
      list of its runes.  Lengths and indexes stay what they are in Go,
      byte counts: [len], [strings.Index], [strings.LastIndex] and the
      slicing operations below count [utf8.RuneLen] bytes per rune.
    - A Go [int] is a [Z].  Arithmetic on configuration values (padding
      unit, terminal size, column widths) is wrapped to 64 bits with
      [int64]; slice lengths, loop indexes and display widths of strings
      are far below 2^63 and are left unwrapped.
    - [float64] is IEEE 754 binary64, computed by the Standard Library's
      [SpecFloat] operations at precision 53 and maximal exponent 1024.
    - A run-time panic (explicit [panic], index or slice out of range) is
      the [Panicked] outcome of the error monad [outcome].
    - The package-level variable [MIN_PADDING] and the format registry
      [TableFormats] live in an explicit record [Globals] which every
      function that reads them receives and [SetAutoSize] returns.
    - A row is a [*TabulateRow] whose [Elements] is a slice: the wrapping
      pass overwrites the cells and the flag of the rows it is given.
      [wrapCellDataMem] is that pass on an explicit [Store] of string
      cells and row objects, in which two rows may be one object or
      hold overlapping slices.  [wrapCellData] is the same pass on row
      values, as [Render] uses it; the two return the same rows when the
      rows of the table are distinct objects over disjoint cells
      ([wrapCellDataMem_values]). *)

From Stdlib Require Import ZArith List Bool Lia String Ascii Permutation.
From Stdlib Require Import Floats.SpecFloat.
Import ListNotations.

Local Open Scope Z_scope.

(** ** Go values *)

Definition rune := Z.

(** A string: the runes of a valid UTF-8 byte sequence. *)
Definition gostring := list rune.

(** ASCII literals for the examples. *)
Definition str (s : string) : gostring :=
  map (fun a => Z.of_N (N_of_ascii a)) (list_ascii_of_string s).

Definition space : rune := 32.
Definition newline : rune := 10.

Fixpoint gostring_eqb (a b : gostring) : bool :=
  match a, b with
  | [], [] => true
  | x :: a', y :: b' => (x =? y) && gostring_eqb a' b'
  | _, _ => false
  end.

(** Signed 64-bit wrap-around of Go's [int]. *)
Definition int64 (z : Z) : Z := (z + 2 ^ 63) mod 2 ^ 64 - 2 ^ 63.

Definition MinInt64 : Z := - 2 ^ 63.

(** *** Panics *)

Inductive panic : Type :=
| IndexOutOfRange
| SliceBoundsOutOfRange
| PanicString (msg : string)
| PanicError (err : string).

Inductive outcome (A : Type) : Type :=
| Ok (a : A)
| Panicked (p : panic).

Arguments Ok {A} a.
Arguments Panicked {A} p.

Definition bind {A B : Type} (m : outcome A) (k : A -> outcome B) : outcome B :=
  match m with
  | Ok a => k a
  | Panicked p => Panicked p
  end.

Declare Scope go_scope.
Delimit Scope go_scope with go.
Notation "x <- m ;; k" := (bind m (fun x => k))
  (at level 61, m at next level, right associativity) : go_scope.
Notation "' pat <- m ;; k" := (bind m (fun x => match x with pat => k end))
  (at level 61, pat pattern, m at next level, right associativity) : go_scope.
Local Open Scope go_scope.

(** [s[i]] on a slice: a run-time panic outside the bounds. *)
Definition elemAt {A : Type} (s : list A) (i : Z) : outcome A :=
  if i <? 0 then Panicked IndexOutOfRange
  else match nth_error s (Z.to_nat i) with
       | Some a => Ok a
       | None => Panicked IndexOutOfRange
       end.

Definition llen {A : Type} (s : list A) : Z := Z.of_nat (List.length s).

(** [s[1:]] on a slice: a run-time panic when the slice is empty. *)
Definition sliceFrom1 {A : Type} (s : list A) : outcome (list A) :=
  if llen s <? 1 then Panicked SliceBoundsOutOfRange else Ok (tl s).

(** *** Strings: byte lengths and byte offsets *)

Module utf8.
(** Bytes of the UTF-8 encoding of a rune of a valid string. *)
Definition RuneLen (r : rune) : Z :=
  if r <? 128 then 1
  else if r <? 2048 then 2
  else if r <? 65536 then 3
  else 4.
End utf8.

(** [len(s)] of a string: its length in bytes. *)
Fixpoint len (s : gostring) : Z :=
  match s with
  | [] => 0
  | r :: s' => utf8.RuneLen r + len s'
  end.

(** [s[:k]] for a byte offset [k] on a rune boundary. *)
Fixpoint sliceTo (s : gostring) (k : Z) : gostring :=
  match s with
  | [] => []
  | r :: s' => if k <=? 0 then [] else r :: sliceTo s' (k - utf8.RuneLen r)
  end.

(** [s[k:]] for a byte offset [k] on a rune boundary. *)
Fixpoint sliceFrom (s : gostring) (k : Z) : gostring :=
  match s with
  | [] => []
  | r :: s' => if k <=? 0 then s else sliceFrom s' (k - utf8.RuneLen r)
  end.

Module strings.
(** [strings.Index(s, c)] for a one-character ASCII string [c]: the byte
    offset of its first occurrence, or -1. *)
Fixpoint Index (s : gostring) (c : rune) : Z :=
  match s with
  | [] => -1
  | r :: s' =>
      if r =? c then 0
      else let k := Index s' c in
           if k =? -1 then -1 else utf8.RuneLen r + k
  end.

(** [strings.LastIndex(s, c)]: the byte offset of the last occurrence,
    or -1. *)
Fixpoint LastIndex (s : gostring) (c : rune) : Z :=
  match s with
  | [] => -1
  | r :: s' =>
      let k := LastIndex s' c in
      if k =? -1 then (if r =? c then 0 else -1) else utf8.RuneLen r + k
  end.
End strings.

(** *** float64 *)

Definition float64 := spec_float.

Module math.
Definition prec : Z := 53.
Definition emax : Z := 1024.

(** [float64(z)] of an [int]: round to nearest, ties to even. *)
Definition of_int (z : Z) : float64 := binary_normalize prec emax z 0 false.

Definition div (x y : float64) : float64 := SFdiv prec emax x y.
Definition mul (x y : float64) : float64 := SFmul prec emax x y.
Definition ltb (x y : float64) : bool := SFltb x y.

(** [math.Floor]: the largest integral float below or equal to [x];
    zeros, infinities and NaN are returned as they are. *)
Definition Floor (x : float64) : float64 :=
  match x with
  | S754_finite s m e =>
      if e <? 0
      then binary_normalize prec emax (Z.shiftr (cond_Zopp s (Zpos m)) (- e)) 0 s
      else x
  | _ => x
  end.

(** [math.Ceil(x) = -Floor(-x)]. *)
Definition Ceil (x : float64) : float64 := SFopp (Floor (SFopp x)).

(** [int(x)] of a float: truncation toward zero; on a value that an
    [int] cannot hold (NaN, infinities, magnitude 2^63 and above) the
    result is the one of amd64, the smallest [int]. *)
Definition to_int (x : float64) : Z :=
  match x with
  | S754_zero _ => 0
  | S754_finite s m e =>
      let v := if e <? 0
               then cond_Zopp s (Z.shiftr (Zpos m) (- e))
               else cond_Zopp s (Z.shiftl (Zpos m) e) in
      if (MinInt64 <=? v) && (v <? 2 ^ 63) then v else MinInt64
  | _ => MinInt64
  end.
End math.

(** ** The external packages *)

Module runewidth.
(** The width table of [go-runewidth] is not part of the package: a
    [Condition] supplies the display width of a rune, and everything
    below is stated for every [Condition]. *)
Class Condition : Type := { RuneWidth : rune -> Z }.

Section Width.
Context {c : Condition}.

(** [StringWidth]: the sum of the widths of the runes. *)
Definition StringWidth (s : gostring) : Z :=
  fold_left (fun width r => width + RuneWidth r) s 0.

(** The loop of [Truncate]: the runes taken while the width stays
    within [w]. *)
Fixpoint truncateLoop (r : list rune) (w width : Z) : list rune :=
  match r with
  | [] => []
  | x :: r' =>
      let cw := RuneWidth x in
      if width + cw >? w then [] else x :: truncateLoop r' w (width + cw)
  end.

(** [Truncate(s, w, tail)]. *)
Definition Truncate (s : gostring) (w : Z) (tail : gostring) : gostring :=
  if StringWidth s <=? w then s
  else truncateLoop s (w - StringWidth tail) 0 ++ tail.
End Width.

(** The default width table.  The package [go-runewidth] is not part of
    the sources; the table follows its [RuneWidth] with [EastAsianWidth]
    off, block by block: no column for control characters (newline and
    tab among them), for the soft hyphen, for combining marks, variation
    selectors and the zero-width format characters; two columns for the
    East Asian wide and full-width blocks and for the emoji blocks; one
    column for every other rune. *)
Definition zeroWidthRune (r : rune) : bool :=
  (r <? 32) || (1114111 <? r)
  || ((127 <=? r) && (r <=? 159)) || (r =? 173)
  || ((768 <=? r) && (r <=? 879))
  || ((1155 <=? r) && (r <=? 1161))
  || ((6832 <=? r) && (r <=? 6911))
  || ((7616 <=? r) && (r <=? 7679))
  || ((8203 <=? r) && (r <=? 8207))
  || ((8232 <=? r) && (r <=? 8238))
  || ((8298 <=? r) && (r <=? 8303))
  || ((8400 <=? r) && (r <=? 8447))
  || ((65024 <=? r) && (r <=? 65039))
  || ((65056 <=? r) && (r <=? 65071))
  || (r =? 65279).

Definition wideRune (r : rune) : bool :=
  (4352 <=? r) &&
  ((r <=? 4447) || (r =? 9001) || (r =? 9002)
   || ((11904 <=? r) && (r <=? 42191) && negb (r =? 12351))
   || ((44032 <=? r) && (r <=? 55203))
   || ((63744 <=? r) && (r <=? 64255))
   || ((65072 <=? r) && (r <=? 65135))
   || ((65280 <=? r) && (r <=? 65376))
   || ((65504 <=? r) && (r <=? 65510))
   || ((127744 <=? r) && (r <=? 128591))
   || ((129280 <=? r) && (r <=? 129535))
   || ((131072 <=? r) && (r <=? 196605))
   || ((196608 <=? r) && (r <=? 262141))).

Definition DefaultCondition : Condition :=
  {| RuneWidth := fun r => if zeroWidthRune r then 0
                           else if wideRune r then 2 else 1 |}.
End runewidth.

Import runewidth.

(** The terminal as [termbox.Init] and [termbox.Size] find it. *)
Inductive termbox : Type :=
| InitError (err : string)
| Size (width height : Z).

(** ** Data model *)

(** [type Line struct { begin, hline, sep, end string }] *)
Record Line : Type := mkLine {
  line_begin : gostring;
  line_hline : gostring;
  line_sep : gostring;
  line_end : gostring
}.

(** [type Row struct { begin, sep, end string }] *)
Record Row : Type := mkRow {
  row_begin : gostring;
  row_sep : gostring;
  row_end : gostring
}.

Record TableFormat : Type := mkTableFormat {
  LineTop : Line;
  LineBelowHeader : Line;
  LineBetweenRows : Line;
  LineBottom : Line;
  HeaderRow : Row;
  DataRow : Row;
  Padding : Z;
  HeaderHide : bool;
  FitScreen : bool
}.

Definition zeroLine : Line := mkLine [] [] [] [].
Definition zeroRow : Row := mkRow [] [] [].

(** The zero value, which a map lookup of an unknown name yields. *)
Definition zeroTableFormat : TableFormat :=
  mkTableFormat zeroLine zeroLine zeroLine zeroLine zeroRow zeroRow 0 false false.

(** [var TableFormats = map[string]TableFormat{...}] *)
Definition TableFormats0 : list (string * TableFormat) :=
  [ ("simple"%string,
      mkTableFormat
        (mkLine [] (str "-") (str "  ") [])
        (mkLine [] (str "-") (str "  ") [])
        zeroLine
        (mkLine [] (str "-") (str "  ") [])
        (mkRow [] (str "  ") [])
        (mkRow [] (str "  ") [])
        1 false false);
    ("plain"%string,
      mkTableFormat zeroLine zeroLine zeroLine zeroLine
        (mkRow [] (str "  ") [])
        (mkRow [] (str "  ") [])
        1 false false);
    ("grid"%string,
      mkTableFormat
        (mkLine (str "+") (str "-") (str "+") (str "+"))
        (mkLine (str "+") (str "=") (str "+") (str "+"))
        (mkLine (str "+") (str "-") (str "+") (str "+"))
        (mkLine (str "+") (str "-") (str "+") (str "+"))
        (mkRow (str "|") (str "|") (str "|"))
        (mkRow (str "|") (str "|") (str "|"))
        1 false false);
    ("border"%string,
      mkTableFormat
        (mkLine [9487] [9473] [9523] [9491])
        (mkLine [9505] [9473] [9543] [9513])
        (mkLine [9500] [9472] [9532] [9508])
        (mkLine [9492] [9472] [9524] [9496])
        (mkRow [9475] [9475] [9475])
        (mkRow [9474] [9474] [9474])
        1 false false) ].

(** The package-level variables. *)
Record Globals : Type := mkGlobals {
  MIN_PADDING : Z;
  TableFormats : list (string * TableFormat)
}.

(** [var MIN_PADDING = 5] *)
Definition initGlobals : Globals := mkGlobals 5 TableFormats0.

Fixpoint lookupFormat (m : list (string * TableFormat)) (name : string)
  : TableFormat :=
  match m with
  | [] => zeroTableFormat
  | (k, f) :: m' => if String.eqb k name then f else lookupFormat m' name
  end.

(** [type TabulateRow struct { Elements []string; Continuous bool }] *)
Record TabulateRow : Type := mkTabulateRow {
  Elements : list gostring;
  Continuous : bool
}.

(** [type Tabulate struct {...}]; the field [TableFormat] is [Format]. *)
Record Tabulate : Type := mkTabulate {
  Data : list TabulateRow;
  Headers : list gostring;
  FloatFormat : Z;
  Format : TableFormat;
  Align : gostring;
  EmptyVar : gostring;
  HideLines : list gostring;
  MaxSize : Z;
  WrapStrings : bool;
  AutoSize : bool
}.

Definition withData (t : Tabulate) (d : list TabulateRow) : Tabulate :=
  mkTabulate d (Headers t) (FloatFormat t) (Format t) (Align t) (EmptyVar t)
    (HideLines t) (MaxSize t) (WrapStrings t) (AutoSize t).

Definition withHeaders (t : Tabulate) (h : list gostring) : Tabulate :=
  mkTabulate (Data t) h (FloatFormat t) (Format t) (Align t) (EmptyVar t)
    (HideLines t) (MaxSize t) (WrapStrings t) (AutoSize t).

Definition withFormat (t : Tabulate) (f : TableFormat) : Tabulate :=
  mkTabulate (Data t) (Headers t) (FloatFormat t) f (Align t) (EmptyVar t)
    (HideLines t) (MaxSize t) (WrapStrings t) (AutoSize t).

(** Modelled from the spec: the normalizer of [Create] for rows of
    strings is outside the layout engine; it supplies the rows as they
    are, unflagged.  [Create] itself sets [FloatFormat: 'f', MaxSize: 30]. *)
Definition Create (data : list (list gostring)) : Tabulate :=
  mkTabulate (map (fun r => mkTabulateRow r false) data)
    [] 102 zeroTableFormat [] [] [] 30 false false.

(** Modelled from the spec: [inSlice], the membership test on the set of
    suppressed border lines. *)
Definition inSlice (a : gostring) (l : list gostring) : bool :=
  existsb (gostring_eqb a) l.

(** ** The setters *)

Definition SetHeaders (t : Tabulate) (headers : list gostring) : Tabulate :=
  withHeaders t headers.

Definition SetFloatFormat (t : Tabulate) (format : Z) : Tabulate :=
  mkTabulate (Data t) (Headers t) format (Format t) (Align t) (EmptyVar t)
    (HideLines t) (MaxSize t) (WrapStrings t) (AutoSize t).

Definition SetAlign (t : Tabulate) (align : gostring) : Tabulate :=
  mkTabulate (Data t) (Headers t) (FloatFormat t) (Format t) align (EmptyVar t)
    (HideLines t) (MaxSize t) (WrapStrings t) (AutoSize t).

(** [t.EmptyVar = empty + " "] *)
Definition SetEmptyString (t : Tabulate) (empty : gostring) : Tabulate :=
  mkTabulate (Data t) (Headers t) (FloatFormat t) (Format t) (Align t)
    (empty ++ [space]) (HideLines t) (MaxSize t) (WrapStrings t) (AutoSize t).

Definition SetHideLines (t : Tabulate) (hide : list gostring) : Tabulate :=
  mkTabulate (Data t) (Headers t) (FloatFormat t) (Format t) (Align t)
    (EmptyVar t) hide (MaxSize t) (WrapStrings t) (AutoSize t).

Definition SetWrapStrings (t : Tabulate) (wrap : bool) : Tabulate :=
  mkTabulate (Data t) (Headers t) (FloatFormat t) (Format t) (Align t)
    (EmptyVar t) (HideLines t) (MaxSize t) wrap (AutoSize t).

(** [MIN_PADDING = 2; t.AutoSize = autosize]: the first assignment is to
    the package variable. *)
Definition SetAutoSize (g : Globals) (t : Tabulate) (autosize : bool)
  : Globals * Tabulate :=
  (mkGlobals 2 (TableFormats g),
   mkTabulate (Data t) (Headers t) (FloatFormat t) (Format t) (Align t)
     (EmptyVar t) (HideLines t) (MaxSize t) (WrapStrings t) autosize).

Definition SetMaxCellSize (t : Tabulate) (max : Z) : Tabulate :=
  mkTabulate (Data t) (Headers t) (FloatFormat t) (Format t) (Align t)
    (EmptyVar t) (HideLines t) max (WrapStrings t) (AutoSize t).

(** ** The write buffer *)

(** [b.Write(str, count)]: [str] appended [count] times, nothing for a
    count of zero or less. *)
Definition Write (b : gostring) (s : gostring) (count : Z) : gostring :=
  b ++ List.concat (repeat s (Z.to_nat count)).

(** ** The layout engine *)

Section Layout.
Context {c : Condition}.

(** *** Padding and alignment *)

(** [padRow]: [padding] blanks on each side of every cell. *)
Definition padRow (arr : list gostring) (padding : Z) : list gostring :=
  if llen arr <? 1 then arr
  else map (fun el => Write (Write (Write [] [space] padding) el 1)
                        [space] padding) arr.

(** Align right (padding on the left). *)
Definition padLeft (width : Z) (s : gostring) : gostring :=
  Write (Write [] [space] (int64 (width - StringWidth s))) s 1.

(** Align left (padding on the right). *)
Definition padRight (width : Z) (s : gostring) : gostring :=
  Write (Write [] s 1) [space] (int64 (width - StringWidth s)).

(** Center: [math.Ceil] of half the deficit goes before the content. *)
Definition padCenter (width : Z) (s : gostring) : gostring :=
  let padding :=
    math.to_int (math.Ceil (math.div
      (math.of_int (int64 (width - StringWidth s))) (math.of_int 2))) in
  let b := Write (Write [] [space] padding) s 1 in
  Write b [space] (int64 (width - StringWidth b)).

Definition getAlignFunc (t : Tabulate) : Z -> gostring -> gostring :=
  if (len (Align t) <? 1) || gostring_eqb (Align t) (str "right")
  then padLeft
  else if gostring_eqb (Align t) (str "left") then padRight
  else padCenter.

(** *** Lines and rows *)

(** The second loop of [buildLine] and [buildRow]: the cells with the
    separator between them, none after the last. *)
Fixpoint joinCells (cells : list gostring) (sep : gostring) : gostring :=
  match cells with
  | [] => []
  | [x] => x
  | x :: rest => x ++ sep ++ joinCells rest sep
  end.

(** The first loop of [buildLine]: cell [i] is the fill glyph repeated
    [padding[i] + MIN_PADDING] times, for [i] below [len(padded_widths)]. *)
Fixpoint lineCells (g : Globals) (padded_widths : list Z) (i : Z)
    (padding : list Z) (l : Line) : outcome (list gostring) :=
  match padded_widths with
  | [] => Ok []
  | _ :: rest =>
      p <- elemAt padding i ;;
      cells <- lineCells g rest (i + 1) padding l ;;
      Ok (Write [] (line_hline l) (int64 (p + MIN_PADDING g)) :: cells)
  end.

Definition buildLine (g : Globals) (padded_widths padding : list Z)
    (l : Line) : outcome gostring :=
  cells <- lineCells g padded_widths 0 padding l ;;
  Ok (line_begin l ++ joinCells cells (line_sep l) ++ line_end l).

(** The text of column [i] of a row: the placeholder when the row has
    no cell there or the cell is [" nil "], the cell otherwise. *)
Definition rowCell (t : Tabulate) (elements : list gostring) (i : nat)
    (width : Z) : gostring :=
  let padFunc := getAlignFunc t in
  match nth_error elements i with
  | None => padFunc width (EmptyVar t)
  | Some e =>
      if gostring_eqb e (str " nil ") then padFunc width (EmptyVar t)
      else padFunc width e
  end.

Fixpoint rowCells (t : Tabulate) (elements : list gostring)
    (padded_widths : list Z) (i : nat) : list gostring :=
  match padded_widths with
  | [] => []
  | w :: rest => rowCell t elements i w :: rowCells t elements rest (S i)
  end.

Definition buildRow (t : Tabulate) (elements : list gostring)
    (padded_widths paddings : list Z) (d : Row) : gostring :=
  row_begin d ++ joinCells (rowCells t elements padded_widths 0) (row_sep d)
    ++ row_end d.

(** *** Natural widths *)

(** The body of the inner loop of [getWidths] for column [i]; the state
    is [(widths[i], current_max)]. *)
Definition widthStep (i : nat) (st : Z * Z) (item : TabulateRow) : Z * Z :=
  let '(w, current_max) := st in
  match nth_error (Elements item) i with
  | Some element =>
      let strLength := StringWidth element in
      if strLength >? current_max then (strLength, strLength)
      else (current_max, current_max)
  | None => st
  end.

(** [widths[i]] after the inner loop: it starts at the 0 of [make] and
    [current_max] at the width of the header. *)
Definition columnWidth (i : nat) (header : gostring)
    (data : list TabulateRow) : Z :=
  fst (fold_left (widthStep i) data (0, StringWidth header)).

Fixpoint getWidthsFrom (i : nat) (headers : list gostring)
    (data : list TabulateRow) : list Z :=
  match headers with
  | [] => []
  | h :: rest => columnWidth i h data :: getWidthsFrom (S i) rest data
  end.

(** [getWidths]; the first value of [current_max], [len(t.EmptyVar)], is
    overwritten before it is read and the receiver plays no other part. *)
Definition getWidths (headers : list gostring) (data : list TabulateRow)
  : list Z :=
  getWidthsFrom 0 headers data.

(** *** Autosizing *)

Definition scale (col : Z) (ratio : float64) : Z :=
  math.to_int (math.Floor (math.mul (math.of_int col) ratio)).

(** The classification loop of the shrinking branch of [autoSize], from
    column [i] on: each column with its new width and its [shrinkable]
    flag, and the ratio after the last column. *)
Fixpoint shrinkPass (g : Globals) (t : Tabulate) (headers : list gostring)
    (fullWidth totalWidth : Z) (averageSize : float64) (i : Z)
    (cols : list Z) (unshrinkableColumnsWidth : Z) (ratio : float64)
  : outcome (list (Z * bool) * float64) :=
  match cols with
  | [] => Ok ([], ratio)
  | col :: rest =>
      if math.ltb (math.of_int col) averageSize then
        let u := int64 (unshrinkableColumnsWidth + col
                        + MIN_PADDING g * Padding (Format t)) in
        let ratio' := math.div (math.of_int (int64 (fullWidth - u)))
                               (math.of_int (int64 (totalWidth - u))) in
        '(out, r) <- shrinkPass g t headers fullWidth totalWidth
                       averageSize (i + 1) rest u ratio' ;;
        Ok ((col, false) :: out, r)
      else
        let newSize := scale col ratio in
        h <- elemAt headers i ;;
        if newSize <? StringWidth h then
          let u := int64 (unshrinkableColumnsWidth + (StringWidth h - col)
                          + MIN_PADDING g * Padding (Format t)) in
          let ratio' := math.div (math.of_int (int64 (fullWidth - u)))
                                 (math.of_int (int64 (totalWidth - u))) in
          '(out, r) <- shrinkPass g t headers fullWidth totalWidth
                         averageSize (i + 1) rest u ratio' ;;
          Ok ((StringWidth h, false) :: out, r)
        else
          '(out, r) <- shrinkPass g t headers fullWidth totalWidth
                         averageSize (i + 1) rest
                         unshrinkableColumnsWidth ratio ;;
          Ok ((col, true) :: out, r)
  end.

Definition autoSize (g : Globals) (term : termbox) (t : Tabulate)
    (headers : list gostring) (cols : list Z) : outcome (list Z) :=
  let totalWidth := fold_left (fun a col => int64 (a + col)) cols 0 in
  match term with
  | InitError err => Panicked (PanicError err)
  | Size width _ =>
      let fullWidth :=
        int64 (width - (2 + llen cols
                             * (1 + Padding (Format t) * MIN_PADDING g))) in
      let ratio := math.div (math.of_int fullWidth) (math.of_int totalWidth) in
      let averageSize :=
        math.div (math.of_int fullWidth) (math.of_int (llen cols)) in
      if totalWidth <=? fullWidth then
        Ok (map (fun col => scale col ratio) cols)
      else
        '(out, r) <- shrinkPass g t headers fullWidth totalWidth
                       averageSize 0 cols 0 ratio ;;
        Ok (map (fun cs : Z * bool =>
                   if snd cs then scale (fst cs) r else fst cs) out)
  end.

(** *** Wrapping *)

(** The body of the cell loop of [wrapCellData] for one cell [e] of
    capacity [maxColWidth]: the new [elements[i]], the new
    [new_elements[i]], and whether [next.Continuous] was set. *)
Definition wrapCell (maxColWidth : Z) (e : gostring)
  : outcome (gostring * gostring * bool) :=
  let newlineIndex := strings.Index e newline in
  if negb (newlineIndex =? -1) && (newlineIndex <? maxColWidth) then
    let head := sliceTo e newlineIndex in
    Ok (head, sliceFrom e (len head + 1), true)
  else if StringWidth e >? maxColWidth then
    let head := Truncate e maxColWidth [] in
    (* [elements[i][len(elements[i])-1:]] on an empty string *)
    if len head - 1 <? 0 then Panicked SliceBoundsOutOfRange
    else
      let head :=
        if negb (gostring_eqb (sliceFrom head (len head - 1)) [space]) then
          let lastWordStart := strings.LastIndex head space in
          if negb (lastWordStart =? -1)
          then sliceTo head (lastWordStart + 1)
          else head
        else head in
      Ok (head, sliceFrom e (len head), true)
  else Ok (e, [], false).

(** The cell loop over [elements] from column [i] on: the row's cells
    after the loop, [new_elements], and whether a cell was split. *)
Fixpoint wrapElements (t : Tabulate) (cols : list Z) (i : Z)
    (elements : list gostring)
  : outcome (list gostring * list gostring * bool) :=
  match elements with
  | [] => Ok ([], [], false)
  | e :: rest =>
      maxColWidth <- (if AutoSize t then elemAt cols i else Ok (MaxSize t)) ;;
      '(head, remainder, split) <- wrapCell maxColWidth e ;;
      '(heads, remainders, more) <- wrapElements t cols (i + 1) rest ;;
      Ok (head :: heads, remainder :: remainders, split || more)
  end.

(** One pass of the cell loop over the value of the row [next]: the row
    as the loop leaves it (cells overwritten by their heads,
    [Continuous] set when a cell was split) and [new_elements].  The
    writes reach no other row here; [wrapRowMem] below has them in the
    store. *)
Definition wrapRow (t : Tabulate) (cols : list Z) (next : TabulateRow)
  : outcome (TabulateRow * list gostring) :=
  '(heads, new_elements, split) <- wrapElements t cols 0 (Elements next) ;;
  Ok (mkTabulateRow heads (Continuous next || split), new_elements).

(** The row loop [for index := 0; index <= len(t.Data); index++] on row
    values, one unit of fuel per iteration; [None] when the fuel runs
    out.  [t.Data[index+1]] is the row as the table had it at the call:
    what the code reads when no earlier row shares cells with it
    ([wrapLoopMem] below reads the store). *)
Fixpoint wrapLoop (fuel : nat) (t : Tabulate) (cols : list Z) (index : Z)
    (next : TabulateRow) (arr : list TabulateRow)
  : option (outcome (list TabulateRow)) :=
  if index <=? llen (Data t) then
    match fuel with
    | O => None
    | S fuel' =>
        match wrapRow t cols next with
        | Panicked p => Some (Panicked p)
        | Ok (next', new_elements) =>
            if Continuous next' then
              wrapLoop fuel' t cols (index - 1 + 1)
                (mkTabulateRow new_elements false) (arr ++ [next'])
            else if index + 1 <? llen (Data t) then
              match elemAt (Data t) (index + 1) with
              | Ok d => wrapLoop fuel' t cols (index + 1) d (arr ++ [next'])
              | Panicked p => Some (Panicked p)
              end
            else if index >=? llen (Data t) then
              wrapLoop fuel' t cols (index + 1) next' (arr ++ [next'])
            else wrapLoop fuel' t cols (index + 1) next' arr
        end
    end
  else Some (Ok arr).

(** Runes in the cells of a row. *)
Definition rowSize (r : TabulateRow) : nat :=
  fold_right (fun e n => (List.length e + n)%nat) O (Elements r).

(** Iterations granted to the row loop: two per row and one per rune. *)
Definition wrapFuel (data : list TabulateRow) : nat :=
  S (fold_right (fun r n => (rowSize r + 2 + n)%nat) O data).

Definition wrapCellData (t : Tabulate) (cols : list Z)
  : option (outcome (list TabulateRow)) :=
  match elemAt (Data t) 0 with
  | Panicked p => Some (Panicked p)
  | Ok next => wrapLoop (wrapFuel (Data t)) t cols 0 next []
  end.

(** *** Wrapping, on the rows in memory *)

(** A slice of strings: [size] cells of the store from address [base]. *)
Record Slice : Type := mkSlice { base : nat; size : nat }.

(** The fields of a [TabulateRow] object. *)
Record RowObject : Type :=
  mkRowObject { elementsOf : Slice; continuousOf : bool }.

(** The store: the string cells by address, the row objects by pointer,
    and how many of each are in use. *)
Record Store : Type := mkStore {
  cellAt : nat -> gostring;
  rowAt : nat -> RowObject;
  cellsUsed : nat;
  rowsUsed : nat
}.

Definition readCells (m : Store) (s : Slice) : list gostring :=
  map (cellAt m) (seq (base s) (size s)).

(** The row that the pointer [p] leads to. *)
Definition readRow (m : Store) (p : nat) : TabulateRow :=
  mkTabulateRow (readCells m (elementsOf (rowAt m p)))
    (continuousOf (rowAt m p)).

(** [elements[i] = v], for the cell at address [a]. *)
Definition setCell (m : Store) (a : nat) (v : gostring) : Store :=
  mkStore (fun b => if Nat.eqb b a then v else cellAt m b)
    (rowAt m) (cellsUsed m) (rowsUsed m).

(** [next.Continuous = true]. *)
Definition setContinuous (m : Store) (p : nat) : Store :=
  mkStore (cellAt m)
    (fun q => if Nat.eqb q p
              then mkRowObject (elementsOf (rowAt m p)) true
              else rowAt m q)
    (cellsUsed m) (rowsUsed m).

(** [&TabulateRow{Elements: new_elements}]: a new object over the cells
    of [new_elements].  These cells were made by [make] in this
    iteration and nothing else refers to them: they enter the store
    here, behind the cells in use. *)
Definition newRow (m : Store) (new_elements : list gostring) : nat * Store :=
  let a := cellsUsed m in
  let n := List.length new_elements in
  (rowsUsed m,
   mkStore (fun b => if Nat.leb a b && Nat.ltb b (a + n)
                     then nth (b - a) new_elements []
                     else cellAt m b)
     (fun q => if Nat.eqb q (rowsUsed m)
               then mkRowObject (mkSlice a n) false
               else rowAt m q)
     (a + n) (S (rowsUsed m))).

(** The cell loop [for i, e := range elements] from column [i] on, over
    the [n] cells from address [a]: each cell is read when its turn
    comes, and a split writes the head into it and sets the flag of
    [next]; returns [new_elements] and the store. *)
Fixpoint wrapCellsMem (t : Tabulate) (cols : list Z) (next : nat)
    (a : nat) (i : Z) (n : nat) (m : Store)
  : outcome (list gostring * Store) :=
  match n with
  | O => Ok ([], m)
  | S n' =>
      maxColWidth <- (if AutoSize t then elemAt cols i else Ok (MaxSize t)) ;;
      '(head, remainder, split) <- wrapCell maxColWidth (cellAt m a) ;;
      let m := if split : bool then setContinuous (setCell m a head) next
               else m in
      '(remainders, m) <- wrapCellsMem t cols next (S a) (i + 1) n' m ;;
      Ok (remainder :: remainders, m)
  end.

(** One pass of the cell loop over the row behind [next]. *)
Definition wrapRowMem (t : Tabulate) (cols : list Z) (next : nat) (m : Store)
  : outcome (list gostring * Store) :=
  let elements := elementsOf (rowAt m next) in
  wrapCellsMem t cols next (base elements) 0 (size elements) m.

(** The row loop over [data], the pointers of [t.Data]; [t] gives the
    settings.  It returns the pointers of [arr] and the store. *)
Fixpoint wrapLoopMem (fuel : nat) (t : Tabulate) (cols : list Z)
    (data : list nat) (index : Z) (next : nat) (arr : list nat) (m : Store)
  : option (outcome (list nat * Store)) :=
  if index <=? llen data then
    match fuel with
    | O => None
    | S fuel' =>
        match wrapRowMem t cols next m with
        | Panicked p => Some (Panicked p)
        | Ok (new_elements, m) =>
            if continuousOf (rowAt m next) then
              let '(fresh, m') := newRow m new_elements in
              wrapLoopMem fuel' t cols data (index - 1 + 1) fresh
                (arr ++ [next]) m'
            else if index + 1 <? llen data then
              match elemAt data (index + 1) with
              | Ok d => wrapLoopMem fuel' t cols data (index + 1) d
                          (arr ++ [next]) m
              | Panicked p => Some (Panicked p)
              end
            else if index >=? llen data then
              wrapLoopMem fuel' t cols data (index + 1) next
                (arr ++ [next]) m
            else wrapLoopMem fuel' t cols data (index + 1) next arr m
        end
    end
  else Some (Ok (arr, m)).

Definition wrapCellDataMem (t : Tabulate) (cols : list Z) (data : list nat)
    (m : Store) : option (outcome (list nat * Store)) :=
  match elemAt data 0 with
  | Panicked p => Some (Panicked p)
  | Ok next =>
      wrapLoopMem (wrapFuel (map (readRow m) data)) t cols data 0 next [] m
  end.

(** *** Render *)

(** Header inference, choice of the format, the check for data and the
    padding of a short header list.  In the assignment
    [t.Headers, t.Data = t.Data[0].Elements, t.Data[1:]] the compiled
    code checks the bounds of the slice expression before it loads
    [t.Data[0]]: on an empty [t.Data] the panic is the one of [[1:]]. *)
Definition renderPrepare (g : Globals) (t : Tabulate)
    (format : option string) : outcome Tabulate :=
  t <- (if llen (Headers t) <? 1 then
          rest <- sliceFrom1 (Data t) ;;
          first <- elemAt (Data t) 0 ;;
          Ok (withData (withHeaders t (Elements first)) rest)
        else Ok t) ;;
  let t := match format with
           | Some name => withFormat t (lookupFormat (TableFormats g) name)
           | None => t
           end in
  if llen (Data t) <? 1 then Panicked (PanicString "No Data specified")
  else
    first <- elemAt (Data t) 0 ;;
    if llen (Headers t) <? llen (Elements first) then
      let diff := llen (Elements first) - llen (Headers t) in
      Ok (withHeaders t (repeat [] (Z.to_nat diff) ++ Headers t))
    else Ok t.

(** The column widths, and the table with its rows wrapped. *)
Definition renderColumns (g : Globals) (term : termbox) (t : Tabulate)
  : option (outcome (list Z * Tabulate)) :=
  if AutoSize t then
    let cols := getWidths (Headers t) (Data t) in
    match autoSize g term t (Headers t) cols with
    | Panicked p => Some (Panicked p)
    | Ok cols =>
        match wrapCellData t cols with
        | None => None
        | Some (Panicked p) => Some (Panicked p)
        | Some (Ok data) => Some (Ok (cols, withData t data))
        end
    end
  else if WrapStrings t then
    match wrapCellData t [] with
    | None => None
    | Some (Panicked p) => Some (Panicked p)
    | Some (Ok data) =>
        Some (Ok (getWidths (Headers t) data, withData t data))
    end
  else Some (Ok (getWidths (Headers t) (Data t), t)).

Definition paddedWidths (g : Globals) (t : Tabulate) (cols : list Z)
  : list Z :=
  map (fun col => int64 (col + MIN_PADDING g * Padding (Format t))) cols.

(** The lines of the data rows: each row, and the line between rows
    after it unless it is the last or [Continuous]. *)
Fixpoint dataLines (g : Globals) (t : Tabulate) (padded_widths cols : list Z)
    (data : list TabulateRow) : outcome (list gostring) :=
  match data with
  | [] => Ok []
  | element :: rest =>
      let row := buildRow t (padRow (Elements element) (Padding (Format t)))
                   padded_widths cols (DataRow (Format t)) in
      sepLine <- (match rest with
                  | [] => Ok []
                  | _ :: _ =>
                      if negb (Continuous element) then
                        l <- buildLine g padded_widths cols
                               (LineBetweenRows (Format t)) ;;
                        Ok [l]
                      else Ok []
                  end) ;;
      lines <- dataLines g t padded_widths cols rest ;;
      Ok (row :: sepLine ++ lines)
  end.

Definition renderLines (g : Globals) (t : Tabulate) (cols : list Z)
  : outcome gostring :=
  let padded_widths := paddedWidths g t cols in
  top <- (if negb (inSlice (str "top") (HideLines t)) then
            l <- buildLine g padded_widths cols (LineTop (Format t)) ;; Ok [l]
          else Ok []) ;;
  let header := buildRow t (padRow (Headers t) (Padding (Format t)))
                  padded_widths cols (HeaderRow (Format t)) in
  below <- (if negb (inSlice (str "belowheader") (HideLines t)) then
              l <- buildLine g padded_widths cols
                     (LineBelowHeader (Format t)) ;;
              Ok [l]
            else Ok []) ;;
  rows <- dataLines g t padded_widths cols (Data t) ;;
  bottom <- (if negb (inSlice (str "bottomLine") (HideLines t)) then
               l <- buildLine g padded_widths cols
                      (LineBottom (Format t)) ;;
               Ok [l]
             else Ok []) ;;
  Ok (List.concat (map (fun line => line ++ [newline])
                     (top ++ [header] ++ below ++ rows ++ bottom))).

(** [Render]: the text and the table as the call leaves it; a panic
    carries no text. *)
Definition Render (g : Globals) (term : termbox) (t : Tabulate)
    (format : option string) : option (outcome (gostring * Tabulate)) :=
  match renderPrepare g t format with
  | Panicked p => Some (Panicked p)
  | Ok t =>
      match renderColumns g term t with
      | None => None
      | Some (Panicked p) => Some (Panicked p)
      | Some (Ok (cols, t)) =>
          Some (text <- renderLines g t cols ;; Ok (text, t))
      end
  end.

End Layout.

(** ** Notions used by the statements *)

Section Notions.
Context {c : Condition}.

(** The rows that the row loop emits for one row [next]: the row as one
    pass of the cell loop leaves it and, when that pass set
    [Continuous], the rows emitted for the fresh row of remainders. *)
Inductive chain (t : Tabulate) (cols : list Z)
  : TabulateRow -> list TabulateRow -> Prop :=
| chain_last (next next' : TabulateRow) (new_elements : list gostring) :
    wrapRow t cols next = Ok (next', new_elements) ->
    Continuous next' = false ->
    chain t cols next [next']
| chain_split (next next' : TabulateRow) (new_elements : list gostring)
    (rest : list TabulateRow) :
    wrapRow t cols next = Ok (next', new_elements) ->
    Continuous next' = true ->
    chain t cols (mkTabulateRow new_elements false) rest ->
    chain t cols next (next' :: rest).

(** Every row but the last carries [Continuous], the last does not. *)
Definition flagged (rows : list TabulateRow) : Prop :=
  exists body final,
    rows = body ++ [final]
    /\ Forall (fun r => Continuous r = true) body
    /\ Continuous final = false.

(** The measure of the row loop: what one row can still cost. *)
Definition rowCost (r : TabulateRow) : nat :=
  (rowSize r + if Continuous r then 1 else 0)%nat.

(** The cost of the rows after position [i]. *)
Definition restCost (data : list TabulateRow) (i : nat) : nat :=
  fold_right (fun r n => (rowCost r + 1 + n)%nat) O (skipn (S i) data).

Definition loopMeasure (data : list TabulateRow) (i : nat)
    (next : TabulateRow) : nat :=
  (rowCost next + 1 + (if (i <? List.length data)%nat then 1 else 0)
   + restCost data i)%nat.

(** Two slices with a cell in common. *)
Definition overlap (s s' : Slice) : bool :=
  Nat.ltb 0 (size s) && Nat.ltb 0 (size s')
  && Nat.ltb (base s) (base s' + size s')
  && Nat.ltb (base s') (base s + size s).

(** The row object and its cells are among those in use. *)
Definition allocated (m : Store) (p : nat) : bool :=
  Nat.ltb p (rowsUsed m)
  && Nat.leb (base (elementsOf (rowAt m p)) + size (elementsOf (rowAt m p)))
       (cellsUsed m).

(** Rows that share nothing: they are distinct objects in use, and no
    two of them hold a cell in common. *)
Fixpoint separate (m : Store) (rows : list nat) : bool :=
  match rows with
  | [] => true
  | p :: rest =>
      allocated m p
      && forallb (fun q => negb (Nat.eqb p q)
                           && negb (overlap (elementsOf (rowAt m p))
                                      (elementsOf (rowAt m q)))) rest
      && separate m rest
  end.

(** What [separate] decides. *)
Definition apart (m : Store) (rows : list nat) : Prop :=
  NoDup rows
  /\ (forall p, In p rows -> allocated m p = true)
  /\ (forall p q, In p rows -> In q rows -> p <> q ->
        overlap (elementsOf (rowAt m p)) (elementsOf (rowAt m q)) = false).

(** No row is left to render once the header is taken. *)
Definition noDataRows (t : Tabulate) : bool :=
  if llen (Headers t) <? 1 then llen (Data t) <? 2 else llen (Data t) <? 1.

(** No row is left to render, while the table has a header or a row to
    take for it. *)
Definition noRowLeft (t : Tabulate) : bool :=
  if llen (Headers t) <? 1 then llen (Data t) =? 1 else llen (Data t) <? 1.

(** The fatal condition that a table and a terminal present, as the
    value of the panic: no row is left to render; or rows are there,
    autosizing is requested and the terminal cannot be opened. *)
Definition fatalCondition (term : termbox) (t : Tabulate) : option panic :=
  if noRowLeft t then Some (PanicString "No Data specified")
  else if noDataRows t then None
  else if AutoSize t then
    match term with
    | InitError err => Some (PanicError err)
    | Size _ _ => None
    end
  else None.

(** The head that the width branch of [wrapCell] keeps of the truncated
    cell [tr]. *)
Definition widthHead (tr : gostring) : gostring :=
  if negb (gostring_eqb (sliceFrom tr (len tr - 1)) [space]) then
    if negb (strings.LastIndex tr space =? -1)
    then sliceTo tr (strings.LastIndex tr space + 1)
    else tr
  else tr.

(** A capacity that admits every rune. *)
Definition fits (w : Z) : Prop := 0 <= w /\ forall r : rune, RuneWidth r <= w.

(** The capacities that [wrapCellData] reads for a row of [n] cells are
    there and admit every rune. *)
Definition capacities (t : Tabulate) (cols : list Z) (n : nat) : Prop :=
  if AutoSize t
  then (n <= List.length cols)%nat /\ Forall fits cols
  else fits (MaxSize t).

(** [n] blanks. *)
Definition blanks (n : Z) : gostring := Write [] [space] n.

(** The display widths of the cells that the rows have in column [i]. *)
Definition cellWidths (i : nat) (data : list TabulateRow) : list Z :=
  flat_map (fun item => match nth_error (Elements item) i with
                        | Some element => [StringWidth element]
                        | None => []
                        end) data.

(** Runes in a list of cells. *)
Definition cellsSize (cells : list gostring) : nat :=
  fold_right (fun e n => (List.length e + n)%nat) O cells.

(** Assumptions on the width table: no rune has a negative width, no
    rune is wider than its encoding is long, a blank takes one column. *)
Definition nonnegWidths : Prop := forall r : rune, 0 <= RuneWidth r.
Definition widthWithinBytes : Prop :=
  forall r : rune, RuneWidth r <= utf8.RuneLen r.
Definition narrowBlank : Prop := RuneWidth space = 1.

(** The capacity that the cell loop of [wrapCellData] reads for column
    [i]. *)
Definition capacityAt (t : Tabulate) (cols : list Z) (i : Z) : outcome Z :=
  if AutoSize t then elemAt cols i else Ok (MaxSize t).

(** Every cell of the row is within the capacity of its column. *)
Definition rowFits (t : Tabulate) (cols : list Z) (row : TabulateRow) : Prop :=
  forall (j : nat) (cell : gostring),
    nth_error (Elements row) j = Some cell ->
    exists w, capacityAt t cols (Z.of_nat j) = Ok w /\ StringWidth cell <= w.

(** A cell that needs no wrapping under capacity [w]: it has no newline
    at a byte offset below [w] and is not wider than [w]. *)
Definition cellRests (w : Z) (e : gostring) : Prop :=
  (strings.Index e newline = -1 \/ w <= strings.Index e newline)
  /\ StringWidth e <= w.

(** A row that needs no wrapping: it is not flagged and each of its cells
    needs none under the capacity of its column. *)
Definition rowRests (t : Tabulate) (cols : list Z) (row : TabulateRow) : Prop :=
  Continuous row = false
  /\ forall (j : nat) (cell : gostring),
       nth_error (Elements row) j = Some cell ->
       exists w, capacityAt t cols (Z.of_nat j) = Ok w /\ cellRests w cell.

(** A text without its newlines. *)
Definition strip (s : gostring) : gostring :=
  filter (fun r => negb (r =? newline)) s.

(** Two rows of cells joined column by column. *)
Definition zipApp (upper lower : list gostring) : list gostring :=
  map (fun p => fst p ++ snd p) (combine upper lower).

(** Rows of cells joined column by column, from the first row down. *)
Fixpoint stack (rows : list (list gostring)) : list gostring :=
  match rows with
  | [] => []
  | [x] => x
  | x :: rest => zipApp x (stack rest)
  end.

(** The text that [buildRow] aligns in column [i]: the placeholder when
    the row has no cell there or the cell is the marker, else the cell. *)
Definition cellText (t : Tabulate) (elements : list gostring) (i : nat)
  : gostring :=
  match nth_error elements i with
  | None => EmptyVar t
  | Some e => if gostring_eqb e (str " nil ") then EmptyVar t else e
  end.

(** The sum of a list of integers. *)
Definition sumZ (l : list Z) : Z := fold_right Z.add 0 l.

(** What [Render] takes for the header labels, the data rows and the
    format: the first row stands in for an empty header list and then
    leaves the data; a format named in the call replaces the table's. *)
Definition headerSource (t : Tabulate) : list gostring :=
  if llen (Headers t) <? 1
  then match Data t with first :: _ => Elements first | [] => [] end
  else Headers t.

Definition dataSource (t : Tabulate) : list TabulateRow :=
  if llen (Headers t) <? 1 then tl (Data t) else Data t.

Definition formatSource (g : Globals) (t : Tabulate) (format : option string)
  : TableFormat :=
  match format with
  | Some name => lookupFormat (TableFormats g) name
  | None => Format t
  end.

End Notions.

(** ** Tables used in the examples *)

Module Examples.
Definition grid : TableFormat := lookupFormat TableFormats0 "grid".

(** One cell of nine characters under a fixed capacity of five. *)
Definition twoWords : Tabulate :=
  SetMaxCellSize (SetWrapStrings (Create [[str "aaaa bbbb"]]) true) 5.

(** A store with nothing in use, and the rows of a [[][]string] whose
    inner slices are arrays of their own, one object per row. *)
Definition emptyStore : Store :=
  mkStore (fun _ => []) (fun _ => mkRowObject (mkSlice 0 0) false) 0 0.

Fixpoint newRows (m : Store) (rows : list (list gostring))
  : list nat * Store :=
  match rows with
  | [] => ([], m)
  | r :: rest =>
      let '(p, m) := newRow m r in
      let '(ps, m) := newRows m rest in
      (p :: ps, m)
  end.

(** The row of [twoWords] in memory, and what wrapping makes of it. *)
Definition twoWordsStore : list nat * Store :=
  newRows emptyStore [[str "aaaa bbbb"]].

Definition twoWordsWrapped : list nat * Store :=
  match wrapCellDataMem (c := DefaultCondition) twoWords []
          (fst twoWordsStore) (snd twoWordsStore) with
  | Some (Ok r) => r
  | _ => ([], emptyStore)
  end.

(** [r := []string{"aaaa bbbb"}] given twice, [Create([][]string{r, r})]:
    two row objects over the one cell of [r]. *)
Definition sharedRows : Tabulate :=
  SetMaxCellSize
    (SetWrapStrings (Create [[str "aaaa bbbb"]; [str "aaaa bbbb"]]) true) 5.

Definition sharedStore : Store :=
  mkStore (fun _ => str "aaaa bbbb")
    (fun _ => mkRowObject (mkSlice 0 1) false) 1 2.

(** Cells that all fit the default capacity of thirty. *)
Definition fitting : Tabulate :=
  SetWrapStrings (Create [[str "ab"; str "cd"]; [str "ef"]]) true.

(** A newline exactly at the capacity of five, after a blank. *)
Definition newlineAtFive : gostring := str "abcd " ++ [newline] ++ str "fgh".

(** A header and no row. *)
Definition headerOnly : Tabulate := SetHeaders (Create []) [str "Name"].

(** Autosizing requested on a table with a row. *)
Definition autosized : Globals * Tabulate :=
  SetAutoSize initGlobals
    (SetHeaders (Create [[str "Jon Snow"; str "Winterfell"]])
       [str "Name"; str "City"]) true.

(** Two headers over rows of one cell. *)
Definition shortRowHeaders : list gostring := [str "Name"; str "City"].
Definition shortRows : list TabulateRow := [mkTabulateRow [str "x"] false].

(** Five columns of natural widths 50, 2, 2, 2 and 50 under a first
    header of width 47, in the grid format, on a terminal of 117
    columns. *)
Definition wideHeaders : list gostring :=
  [repeat 104 47; str "a"; str "b"; str "c"; str "d"].
Definition wideRow : list gostring :=
  [repeat 120 50; str "xx"; str "xx"; str "xx"; repeat 120 50].
Definition wide : Globals * Tabulate :=
  SetAutoSize initGlobals
    (withFormat (SetHeaders (Create [wideRow]) wideHeaders) grid) true.
Definition terminal117 : termbox := Size 117 40.

(** A placeholder of its own, and a row with an empty cell. *)
Definition emptyCell : list gostring := [[]].
Definition withPlaceholder : Tabulate :=
  withFormat (SetEmptyString (Create [emptyCell]) (str "None")) grid.

(** A table of one row and two columns. *)
Definition jonSnow : Tabulate :=
  SetHeaders (Create [[str "Jon Snow"; str "Winterfell"]])
    [str "Name"; str "City"].

(** The same table in the grid format, and what [Render] makes of it. *)
Definition jonSnowGrid : Tabulate := withFormat jonSnow grid.
Definition jonSnowRendered : gostring * Tabulate :=
  Eval vm_compute in
    match Render (c := DefaultCondition) initGlobals (Size 80 24) jonSnow
            (Some "grid"%string) with
    | Some (Ok r) => r
    | _ => ([], jonSnow)
    end.

(** One label over rows of three cells. *)
Definition oneLabel : Tabulate :=
  SetHeaders (Create [[str "a"; str "b"; str "c"]; [str "d"]]) [str "Last"].
End Examples.

(** ** Facts about strings *)

Lemma RuneLen_pos (r : rune) : 1 <= utf8.RuneLen r.
Proof.
  unfold utf8.RuneLen.
  destruct (r <? 128); [lia|].
  destruct (r <? 2048); [lia|].
  destruct (r <? 65536); lia.
Qed.

Lemma len_nonneg (s : gostring) : 0 <= len s.
Proof.
  induction s as [|r s IH]; simpl; [lia|].
  pose proof (RuneLen_pos r); lia.
Qed.

Lemma len_pos (s : gostring) : s <> [] -> 1 <= len s.
Proof.
  destruct s as [|r s]; [congruence|]; intros _; simpl.
  pose proof (RuneLen_pos r); pose proof (len_nonneg s); lia.
Qed.

Lemma len_app (a b : gostring) : len (a ++ b) = len a + len b.
Proof. induction a as [|r a IH]; simpl; lia. Qed.

Lemma gostring_eqb_eq (a b : gostring) : gostring_eqb a b = true <-> a = b.
Proof.
  revert b; induction a as [|x a IH]; intros [|y b]; simpl.
  - tauto.
  - split; [discriminate | congruence].
  - split; [discriminate | congruence].
  - rewrite andb_true_iff, Z.eqb_eq, IH.
    split; [intros [-> ->]; reflexivity | intros [= -> ->]; auto].
Qed.

Lemma sliceFrom_length (s : gostring) (k : Z) :
  (List.length (sliceFrom s k) <= List.length s)%nat.
Proof.
  revert k; induction s as [|r s IH]; intros k; simpl; [lia|].
  destruct (k <=? 0); simpl; [lia|].
  specialize (IH (k - utf8.RuneLen r)); lia.
Qed.

Lemma sliceFrom_shorter (s : gostring) (k : Z) :
  0 < k -> s <> [] -> (List.length (sliceFrom s k) < List.length s)%nat.
Proof.
  destruct s as [|r s]; [congruence|]; intros Hk _; simpl.
  destruct (Z.leb_spec k 0); [lia|].
  pose proof (sliceFrom_length s (k - utf8.RuneLen r)); lia.
Qed.

Lemma sliceFrom_app (a b : gostring) : sliceFrom (a ++ b) (len a) = b.
Proof.
  induction a as [|r a IH]; simpl.
  - destruct b; reflexivity.
  - pose proof (RuneLen_pos r); pose proof (len_nonneg a).
    destruct (Z.leb_spec (utf8.RuneLen r + len a) 0); [lia|].
    replace (utf8.RuneLen r + len a - utf8.RuneLen r) with (len a) by lia.
    exact IH.
Qed.

Lemma sliceTo_app (a b : gostring) : sliceTo (a ++ b) (len a) = a.
Proof.
  induction a as [|r a IH]; simpl.
  - destruct b; reflexivity.
  - pose proof (RuneLen_pos r); pose proof (len_nonneg a).
    destruct (Z.leb_spec (utf8.RuneLen r + len a) 0); [lia|].
    replace (utf8.RuneLen r + len a - utf8.RuneLen r) with (len a) by lia.
    rewrite IH; reflexivity.
Qed.

Lemma sliceTo_nonempty (s : gostring) (k : Z) :
  0 < k -> s <> [] -> sliceTo s k <> [].
Proof.
  destruct s as [|r s]; [congruence|]; intros Hk _; simpl.
  destruct (Z.leb_spec k 0); [lia | discriminate].
Qed.

Lemma Index_range (s : gostring) (x : rune) : -1 <= strings.Index s x.
Proof.
  induction s as [|r s IH]; simpl; [lia|].
  destruct (r =? x); [lia|].
  destruct (Z.eqb_spec (strings.Index s x) (-1)); [lia|].
  pose proof (RuneLen_pos r); lia.
Qed.

Lemma LastIndex_range (s : gostring) (x : rune) : -1 <= strings.LastIndex s x.
Proof.
  induction s as [|r s IH]; simpl; [lia|].
  destruct (Z.eqb_spec (strings.LastIndex s x) (-1)).
  - destruct (r =? x); lia.
  - pose proof (RuneLen_pos r); lia.
Qed.

(** The first occurrence: [Index] of [p ++ x :: q] when [x] is not in [p]. *)
Lemma Index_first (p q : gostring) (x : rune) :
  ~ In x p -> strings.Index (p ++ x :: q) x = len p.
Proof.
  induction p as [|r p IH]; simpl; intros Hp.
  - rewrite Z.eqb_refl; reflexivity.
  - destruct (Z.eqb_spec r x) as [->|_]; [tauto|].
    rewrite IH by tauto.
    destruct (Z.eqb_spec (len p) (-1)); [pose proof (len_nonneg p); lia|].
    reflexivity.
Qed.

Lemma LastIndex_none (s : gostring) (x : rune) :
  strings.LastIndex s x = -1 -> ~ In x s.
Proof.
  induction s as [|r s IH]; simpl; [tauto|].
  destruct (Z.eqb_spec (strings.LastIndex s x) (-1)) as [E|E].
  - destruct (Z.eqb_spec r x); [lia|]. intros _ [?|?]; [congruence|tauto].
  - pose proof (RuneLen_pos r); pose proof (LastIndex_range s x); lia.
Qed.

(** The last occurrence: a string with [LastIndex] other than -1 splits
    around it. *)
Lemma LastIndex_split (s : gostring) (x : rune) :
  strings.LastIndex s x <> -1 ->
  exists p q, s = p ++ x :: q /\ ~ In x q /\ strings.LastIndex s x = len p.
Proof.
  induction s as [|r s IH]; simpl; [congruence|].
  destruct (Z.eqb_spec (strings.LastIndex s x) (-1)) as [E|E].
  - destruct (Z.eqb_spec r x) as [->|_]; [|congruence].
    intros _; exists [], s; split; [reflexivity|].
    split; [apply LastIndex_none; exact E | reflexivity].
  - intros _; destruct (IH E) as (p & q & -> & Hq & Hl).
    exists (r :: p), q; simpl; repeat split; auto; lia.
Qed.

(** ** Facts about the wrapping pass *)

Section WrapFacts.
Context {c : Condition}.

Lemma truncateLoop_prefix (s : gostring) (w width : Z) :
  exists rest, s = truncateLoop s w width ++ rest.
Proof.
  revert width; induction s as [|x s IH]; intros width; simpl.
  - exists []; reflexivity.
  - destruct (width + RuneWidth x >? w).
    + exists (x :: s); reflexivity.
    + destruct (IH (width + RuneWidth x)) as [rest Hrest].
      exists rest; simpl; congruence.
Qed.

Lemma Truncate_prefix (e : gostring) (w : Z) :
  exists rest, e = Truncate e w [] ++ rest.
Proof.
  unfold Truncate; destruct (StringWidth e <=? w).
  - exists []; rewrite app_nil_r; reflexivity.
  - rewrite app_nil_r; apply truncateLoop_prefix.
Qed.

Lemma Truncate_nil (w : Z) : Truncate [] w [] = [].
Proof. unfold Truncate; destruct (StringWidth [] <=? w); reflexivity. Qed.

Lemma widthHead_nonempty (tr : gostring) : tr <> [] -> widthHead tr <> [].
Proof.
  intros Htr; unfold widthHead.
  destruct (negb _); [|exact Htr].
  destruct (Z.eqb_spec (strings.LastIndex tr space) (-1)); simpl; [exact Htr|].
  apply sliceTo_nonempty; [|exact Htr].
  pose proof (LastIndex_range tr space); lia.
Qed.

(** A split leaves a remainder strictly shorter than the cell. *)
Lemma wrapCell_shrinks (w : Z) (e h r : gostring) :
  wrapCell w e = Ok (h, r, true) ->
  (List.length r < List.length e)%nat.
Proof.
  unfold wrapCell.
  destruct (negb (strings.Index e newline =? -1)
            && (strings.Index e newline <? w)) eqn:Enl.
  - intros [= _ <-].
    apply sliceFrom_shorter.
    + pose proof (len_nonneg (sliceTo e (strings.Index e newline))); lia.
    + intros ->; discriminate Enl.
  - destruct (StringWidth e >? w); [|discriminate].
    destruct (Z.ltb_spec (len (Truncate e w []) - 1) 0) as [|Hlen];
      [discriminate|].
    fold (widthHead (Truncate e w [])).
    intros [= _ <-].
    assert (Htr : Truncate e w [] <> []).
    { intros E; rewrite E in Hlen; simpl in Hlen; lia. }
    apply sliceFrom_shorter.
    + pose proof (len_pos _ (widthHead_nonempty _ Htr)); lia.
    + intros ->; apply Htr, Truncate_nil.
Qed.

(** A cell that is not split is left as it is. *)
Lemma wrapCell_unsplit (w : Z) (e h r : gostring) :
  wrapCell w e = Ok (h, r, false) -> h = e /\ r = [].
Proof.
  unfold wrapCell.
  destruct (negb (strings.Index e newline =? -1)
            && (strings.Index e newline <? w)); [discriminate|].
  destruct (StringWidth e >? w).
  - destruct (len (Truncate e w []) - 1 <? 0); discriminate.
  - intros [= <- <-]; auto.
Qed.

Lemma wrapElements_size (t : Tabulate) (cols : list Z)
    (es : list gostring) :
  forall (i : Z) (hs rs : list gostring) (split : bool),
    wrapElements t cols i es = Ok (hs, rs, split) ->
    (split = false -> hs = es /\ cellsSize rs = O)
    /\ (split = true -> (cellsSize rs < cellsSize es)%nat)
    /\ (cellsSize rs <= cellsSize es)%nat.
Proof.
  induction es as [|e es IH]; intros i hs rs split; simpl.
  - intros [= <- <- <-]; repeat split; auto; discriminate.
  - destruct (if AutoSize t then elemAt cols i else Ok (MaxSize t))
      as [w|p]; simpl; [|discriminate].
    destruct (wrapCell w e) as [[[h r] sp]|p] eqn:Ecell; simpl;
      [|discriminate].
    destruct (wrapElements t cols (i + 1) es) as [[[hs' rs'] more]|p]
      eqn:Erest; simpl; [|discriminate].
    intros [= <- <- <-].
    destruct (IH _ _ _ _ Erest) as (Hfalse & Htrue & Hle).
    destruct sp.
    + pose proof (wrapCell_shrinks _ _ _ _ Ecell).
      simpl; split; [discriminate|]; split; [intros _|]; lia.
    + destruct (wrapCell_unsplit _ _ _ _ Ecell) as [-> ->].
      simpl; split; [|split].
      * intros E; destruct (Hfalse E) as [-> ->]; auto.
      * intros E; specialize (Htrue E); lia.
      * lia.
Qed.

(** A pass that leaves the row without [Continuous] changed nothing. *)
Lemma wrapRow_keeps (t : Tabulate) (cols : list Z)
    (next next' : TabulateRow) (new_elements : list gostring) :
  wrapRow t cols next = Ok (next', new_elements) ->
  Continuous next' = false -> next' = next.
Proof.
  unfold wrapRow.
  destruct (wrapElements t cols 0 (Elements next))
    as [[[hs rs] split]|p] eqn:E; simpl; [|discriminate].
  intros [= <- <-]; simpl; intros Hc.
  apply orb_false_elim in Hc as [Hn Hs].
  destruct (wrapElements_size _ _ _ _ _ _ _ E) as (Hfalse & _).
  destruct (Hfalse Hs) as [-> _].
  rewrite Hs, orb_false_r; destruct next; reflexivity.
Qed.

(** A pass that leaves the row with [Continuous] queues a row of
    remainders of smaller cost. *)
Lemma wrapRow_shrinks (t : Tabulate) (cols : list Z)
    (next next' : TabulateRow) (new_elements : list gostring) :
  wrapRow t cols next = Ok (next', new_elements) ->
  Continuous next' = true ->
  (rowCost (mkTabulateRow new_elements false) < rowCost next)%nat.
Proof.
  unfold wrapRow.
  destruct (wrapElements t cols 0 (Elements next))
    as [[[hs rs] split]|p] eqn:E; simpl; [|discriminate].
  intros [= <- <-]; simpl; intros Hc.
  destruct (wrapElements_size _ _ _ _ _ _ _ E) as (Hfalse & Htrue & _).
  unfold rowCost, rowSize; simpl.
  fold (cellsSize rs); fold (cellsSize (Elements next)).
  destruct split.
  - specialize (Htrue eq_refl); lia.
  - destruct (Hfalse eq_refl) as [_ ->].
    rewrite orb_false_r in Hc; rewrite Hc; lia.
Qed.

(** *** The row loop *)

Lemma wrapLoop_exit (fuel : nat) (t : Tabulate) (cols : list Z) (index : Z)
    (next : TabulateRow) (arr : list TabulateRow) :
  llen (Data t) < index ->
  wrapLoop fuel t cols index next arr = Some (Ok arr).
Proof.
  intros H; destruct fuel; simpl;
    destruct (Z.leb_spec index (llen (Data t))); (lia || reflexivity).
Qed.

Lemma skipn_nth_error {A : Type} (l : list A) (n : nat) (d : A) :
  nth_error l n = Some d -> skipn n l = d :: skipn (S n) l.
Proof.
  revert l; induction n as [|n IH]; intros [|x l]; simpl;
    try discriminate.
  - intros [= ->]; reflexivity.
  - intros H; apply (IH _ H).
Qed.

Lemma restCost_step (data : list TabulateRow) (i : nat) (d : TabulateRow) :
  nth_error data (S i) = Some d ->
  restCost data i = (rowCost d + 1 + restCost data (S i))%nat.
Proof.
  intros H; unfold restCost.
  rewrite (skipn_nth_error _ _ _ H); reflexivity.
Qed.

Lemma restCost_end (data : list TabulateRow) (i : nat) :
  (List.length data <= S i)%nat -> restCost data i = O.
Proof.
  intros H; unfold restCost; rewrite skipn_all2 by exact H; reflexivity.
Qed.

Lemma elemAt_nth {A : Type} (l : list A) (i : nat) :
  elemAt l (Z.of_nat i) =
  match nth_error l i with
  | Some a => Ok a
  | None => Panicked IndexOutOfRange
  end.
Proof.
  unfold elemAt.
  destruct (Z.ltb_spec (Z.of_nat i) 0); [lia|].
  rewrite Nat2Z.id; reflexivity.
Qed.

(** The loop stops within the fuel that its measure grants. *)
Lemma wrapLoop_terminates (t : Tabulate) (cols : list Z) (fuel : nat) :
  forall (i : nat) (next : TabulateRow) (arr : list TabulateRow),
    (loopMeasure (Data t) i next <= fuel)%nat ->
    wrapLoop fuel t cols (Z.of_nat i) next arr <> None.
Proof.
  unfold llen, loopMeasure.
  induction fuel as [|fuel IH]; intros i next arr Hm; [lia|].
  simpl wrapLoop; unfold llen.
  destruct (Z.leb_spec (Z.of_nat i) (Z.of_nat (List.length (Data t))))
    as [Hi|Hi]; [|discriminate].
  destruct (wrapRow t cols next) as [[next' ne]|p] eqn:Erow; [|discriminate].
  destruct (Continuous next') eqn:Ec.
  - replace (Z.of_nat i - 1 + 1) with (Z.of_nat i) by lia.
    apply IH.
    pose proof (wrapRow_shrinks _ _ _ _ _ Erow Ec); lia.
  - rewrite (wrapRow_keeps _ _ _ _ _ Erow Ec) in *.
    destruct (Z.ltb_spec (Z.of_nat i + 1) (Z.of_nat (List.length (Data t))))
      as [Hlt|Hge].
    + replace (Z.of_nat i + 1) with (Z.of_nat (S i)) by lia.
      rewrite elemAt_nth.
      destruct (nth_error (Data t) (S i)) as [d|] eqn:Ed; [|discriminate].
      apply IH.
      rewrite (restCost_step _ _ _ Ed) in Hm.
      destruct (i <? List.length (Data t))%nat eqn:E1;
        destruct (S i <? List.length (Data t))%nat eqn:E2;
        try apply Nat.ltb_lt in E1; try apply Nat.ltb_ge in E1; lia.
    + destruct (Z.of_nat i >=? Z.of_nat (List.length (Data t))) eqn:Ege.
      * rewrite wrapLoop_exit by (unfold llen; lia); discriminate.
      * replace (Z.of_nat i + 1) with (Z.of_nat (S i)) by lia.
        apply IH.
        rewrite Z.geb_leb in Ege; apply Z.leb_gt in Ege.
        rewrite (restCost_end _ (S i)) by lia.
        rewrite (restCost_end _ i) in Hm by lia.
        destruct (i <? List.length (Data t))%nat eqn:E1;
          [|apply Nat.ltb_ge in E1; lia].
        destruct (S i <? List.length (Data t))%nat eqn:E2;
          [apply Nat.ltb_lt in E2; lia|lia].
Qed.

Lemma wrapFuel_enough (next : TabulateRow) (rest : list TabulateRow) :
  (loopMeasure (next :: rest) 0 next <= wrapFuel (next :: rest))%nat.
Proof.
  unfold loopMeasure, wrapFuel, restCost; simpl.
  assert (H : forall l,
             (fold_right (fun r n => rowCost r + 1 + n) 0 l
              <= fold_right (fun r n => rowSize r + 2 + n) 0 l)%nat).
  { induction l as [|r l IHl]; simpl; [lia|].
    unfold rowCost at 1; destruct (Continuous r); lia. }
  specialize (H rest); unfold rowCost at 1.
  destruct (Continuous next); lia.
Qed.

(** [wrapCellData] always comes to an end: with rows or with a panic. *)
Lemma wrapCellData_total (t : Tabulate) (cols : list Z) :
  wrapCellData t cols <> None.
Proof.
  unfold wrapCellData.
  change 0 with (Z.of_nat 0); rewrite elemAt_nth.
  destruct (nth_error (Data t) 0) as [next|] eqn:En; [|discriminate].
  apply wrapLoop_terminates.
  destruct (Data t) as [|d rest]; [discriminate|].
  injection En as ->; apply wrapFuel_enough.
Qed.

(** The last round of the loop, at [index = len(t.Data)], emits the
    chain of the row it holds. *)
Lemma wrapLoop_last (t : Tabulate) (cols : list Z) (fuel : nat) :
  forall (next : TabulateRow) (arr out : list TabulateRow),
    wrapLoop fuel t cols (llen (Data t)) next arr = Some (Ok out) ->
    exists l, chain t cols next l /\ out = arr ++ l.
Proof.
  induction fuel as [|fuel IH]; intros next arr out; simpl wrapLoop;
    rewrite Z.leb_refl; [discriminate|].
  destruct (wrapRow t cols next) as [[next' ne]|p] eqn:Erow; [|discriminate].
  destruct (Continuous next') eqn:Ec.
  - replace (llen (Data t) - 1 + 1) with (llen (Data t)) by lia.
    intros H; destruct (IH _ _ _ H) as (l & Hl & ->).
    exists (next' :: l); split.
    + eapply chain_split; eassumption.
    + rewrite <- app_assoc; reflexivity.
  - destruct (Z.ltb_spec (llen (Data t) + 1) (llen (Data t))); [lia|].
    destruct (Z.geb_spec (llen (Data t)) (llen (Data t))); [|lia].
    rewrite wrapLoop_exit by lia.
    intros [= <-]; exists [next']; split; [|reflexivity].
    eapply chain_last; eassumption.
Qed.

(** From a row of the table on, the loop emits the chain of the row it
    holds and then the chains of the rows after it. *)
Lemma wrapLoop_chain (t : Tabulate) (cols : list Z) (fuel : nat) :
  forall (i : nat) (next : TabulateRow) (arr out : list TabulateRow),
    (i < List.length (Data t))%nat ->
    wrapLoop fuel t cols (Z.of_nat i) next arr = Some (Ok out) ->
    exists l chunks,
      chain t cols next l
      /\ Forall2 (chain t cols) (skipn (S i) (Data t)) chunks
      /\ out = arr ++ l ++ List.concat chunks.
Proof.
  induction fuel as [|fuel IH]; intros i next arr out Hi; simpl wrapLoop;
    unfold llen;
    (destruct (Z.leb_spec (Z.of_nat i) (Z.of_nat (List.length (Data t))))
       as [_|?]; [|lia]); [discriminate|].
  destruct (wrapRow t cols next) as [[next' ne]|p] eqn:Erow; [|discriminate].
  destruct (Continuous next') eqn:Ec.
  - replace (Z.of_nat i - 1 + 1) with (Z.of_nat i) by lia.
    intros Hrun; destruct (IH _ _ _ _ Hi Hrun) as (l & chunks & Hl & Hc & ->).
    exists (next' :: l), chunks; repeat split; auto.
    + eapply chain_split; eassumption.
    + rewrite <- app_assoc; reflexivity.
  - assert (Hlast : chain t cols next [next'])
      by (eapply chain_last; eassumption).
    destruct (Z.ltb_spec (Z.of_nat i + 1) (Z.of_nat (List.length (Data t))))
      as [Hlt|Hge].
    + replace (Z.of_nat i + 1) with (Z.of_nat (S i)) by lia.
      rewrite elemAt_nth.
      destruct (nth_error (Data t) (S i)) as [d|] eqn:Ed; [|discriminate].
      intros Hrun.
      destruct (IH (S i) _ _ _ ltac:(lia) Hrun) as (l & chunks & Hl & Hc & ->).
      exists [next'], (l :: chunks); repeat split; auto.
      * rewrite (skipn_nth_error _ _ _ Ed); constructor; assumption.
      * simpl; rewrite <- app_assoc; reflexivity.
    + destruct (Z.geb_spec (Z.of_nat i) (Z.of_nat (List.length (Data t))))
        as [?|_]; [lia|].
      replace (Z.of_nat i + 1) with (llen (Data t)) by (unfold llen; lia).
      intros Hrun; destruct (wrapLoop_last _ _ _ _ _ _ Hrun) as (l & Hl & ->).
      rewrite (wrapRow_keeps _ _ _ _ _ Erow Ec) in Hl.
      exists l, []; repeat split; auto.
      * rewrite skipn_all2 by lia; constructor.
      * simpl; rewrite app_nil_r; reflexivity.
Qed.

(** The rows returned are, row by row of the table and in its order, the
    chains of the rows. *)
Lemma wrapCellData_chains (t : Tabulate) (cols : list Z)
    (out : list TabulateRow) :
  wrapCellData t cols = Some (Ok out) ->
  exists chunks,
    out = List.concat chunks /\ Forall2 (chain t cols) (Data t) chunks.
Proof.
  unfold wrapCellData.
  change 0 with (Z.of_nat 0); rewrite elemAt_nth.
  destruct (nth_error (Data t) 0) as [next|] eqn:En; [|discriminate].
  intros H.
  assert (Hlen : (0 < List.length (Data t))%nat)
    by (destruct (Data t); [discriminate | simpl; lia]).
  destruct (wrapLoop_chain _ _ _ _ _ _ _ Hlen H) as (l & chunks & Hl & Hc & ->).
  exists (l :: chunks); split; [reflexivity|].
  destruct (Data t) as [|d rest]; [discriminate|].
  injection En as ->; constructor; assumption.
Qed.

Lemma chain_flagged (t : Tabulate) (cols : list Z) (next : TabulateRow)
    (l : list TabulateRow) :
  chain t cols next l -> flagged l.
Proof.
  induction 1 as [next next' ne Hrow Hc
                 |next next' ne rest Hrow Hc _ (body & final & -> & Hb & Hf)].
  - exists [], next'; repeat split; auto.
  - exists (next' :: body), final; repeat split; auto.
Qed.


(** A row that comes with [Continuous] set has a chain of two rows or
    more. *)
Lemma chain_length (t : Tabulate) (cols : list Z) (next : TabulateRow)
    (l : list TabulateRow) :
  chain t cols next l ->
  (1 <= List.length l)%nat
  /\ (Continuous next = true -> (2 <= List.length l)%nat).
Proof.
  intros [n n' ne Hrow Hc|n n' ne rest Hrow Hc Hrest].
  - split; [simpl; lia|]; intros Hn.
    unfold wrapRow in Hrow.
    destruct (wrapElements t cols 0 (Elements n)) as [[[hs rs] sp]|p];
      simpl in Hrow; [|discriminate].
    injection Hrow as <- <-; simpl in Hc; rewrite Hn in Hc; discriminate.
  - assert (1 <= List.length rest)%nat by (destruct Hrest; simpl; lia).
    simpl; split; intros; lia.
Qed.


Lemma chains_length (t : Tabulate) (cols : list Z)
    (data : list TabulateRow) (chunks : list (list TabulateRow)) :
  Forall2 (chain t cols) data chunks ->
  (List.length data <= List.length (List.concat chunks))%nat
  /\ (List.length (List.concat chunks) = List.length data ->
      Forall (fun r => Continuous r = false) data).
Proof.
  induction 1 as [|row l data chunks Hl _ [IHle IHeq]]; simpl.
  - split; [lia | constructor].
  - destruct (chain_length _ _ _ _ Hl) as [H1 H2].
    rewrite length_app; split; [lia|].
    intros Hlen; constructor; [|apply IHeq; lia].
    destruct (Continuous row); [specialize (H2 eq_refl); lia | reflexivity].
Qed.


Lemma sliceFrom_suffix (s : gostring) (k : Z) :
  exists pre, s = pre ++ sliceFrom s k.
Proof.
  revert k; induction s as [|r s IH]; intros k; simpl.
  - exists []; reflexivity.
  - destruct (k <=? 0).
    + exists []; reflexivity.
    + destruct (IH (k - utf8.RuneLen r)) as [pre Hpre].
      exists (r :: pre); simpl; congruence.
Qed.

(** What [widthHead] keeps: the truncated cell up to and with its last
    blank, all of it when it has no blank. *)
Lemma widthHead_spec (tr : gostring) :
  exists tail,
    tr = widthHead tr ++ tail
    /\ ~ In space tail
    /\ (In space tr -> exists h', widthHead tr = h' ++ [space])
    /\ (~ In space tr -> tail = []).
Proof.
  unfold widthHead.
  destruct (gostring_eqb (sliceFrom tr (len tr - 1)) [space]) eqn:Elast; simpl.
  - apply gostring_eqb_eq in Elast.
    destruct (sliceFrom_suffix tr (len tr - 1)) as [pre Hpre].
    rewrite Elast in Hpre.
    exists []; rewrite app_nil_r; repeat split; auto.
    intros _; exists pre; exact Hpre.
  - destruct (Z.eqb_spec (strings.LastIndex tr space) (-1)) as [E|E]; simpl.
    + pose proof (LastIndex_none _ _ E).
      exists []; rewrite app_nil_r; repeat split; auto; tauto.
    + destruct (LastIndex_split _ _ E) as (p & q & Htr & Hq & Hl).
      rewrite Hl.
      assert (Hcut : sliceTo tr (len p + 1) = p ++ [space]).
      { rewrite Htr.
        change (p ++ space :: q) with (p ++ [space] ++ q).
        rewrite app_assoc.
        replace (len p + 1) with (len (p ++ [space]))
          by (rewrite len_app; reflexivity).
        apply sliceTo_app. }
      rewrite Hcut; exists q; repeat split; auto.
      * rewrite <- app_assoc; exact Htr.
      * intros _; exists p; reflexivity.
      * intros Hn; exfalso; apply Hn; rewrite Htr.
        apply in_or_app; right; left; reflexivity.
Qed.

(** *** Runs without a panic *)

Lemma wrapCell_ok (w : Z) (e : gostring) :
  fits w -> exists res, wrapCell w e = Ok res.
Proof.
  intros [Hw Hr]; unfold wrapCell.
  destruct (negb (strings.Index e newline =? -1)
            && (strings.Index e newline <? w)); [eexists; reflexivity|].
  destruct (Z.gtb_spec (StringWidth e) w) as [Hwide|_];
    [|eexists; reflexivity].
  assert (Htr : Truncate e w [] <> []).
  { unfold Truncate.
    destruct (Z.leb_spec (StringWidth e) w); [lia|].
    destruct e as [|x e]; [unfold StringWidth in Hwide; simpl in Hwide; lia|].
    unfold StringWidth at 1; simpl.
    specialize (Hr x).
    destruct (Z.gtb_spec (RuneWidth x) (w - 0)); [lia | discriminate]. }
  pose proof (len_pos _ Htr).
  destruct (Z.ltb_spec (len (Truncate e w []) - 1) 0); [lia|].
  eexists; reflexivity.
Qed.

Lemma wrapElements_ok (t : Tabulate) (cols : list Z) (es : list gostring) :
  forall i : nat,
    capacities t cols (i + List.length es) ->
    exists hs rs split,
      wrapElements t cols (Z.of_nat i) es = Ok (hs, rs, split)
      /\ List.length rs = List.length es.
Proof.
  unfold capacities.
  induction es as [|e es IH]; intros i Hcap; simpl.
  - exists [], [], false; auto.
  - assert (Hw : exists w,
               (if AutoSize t then elemAt cols (Z.of_nat i)
                else Ok (MaxSize t)) = Ok w /\ fits w).
    { destruct (AutoSize t).
      - destruct Hcap as [Hlen Hall]; simpl in Hlen.
        rewrite elemAt_nth.
        destruct (nth_error cols i) as [w|] eqn:Ew.
        + exists w; split; [reflexivity|].
          rewrite Forall_forall in Hall.
          apply Hall; eapply nth_error_In; exact Ew.
        + apply nth_error_None in Ew; lia.
      - exists (MaxSize t); auto. }
    destruct Hw as (w & -> & Hfit); simpl.
    destruct (wrapCell_ok w e Hfit) as [[[h r] sp] ->]; simpl.
    replace (Z.of_nat i + 1) with (Z.of_nat (S i)) by lia.
    destruct (IH (S i)) as (hs & rs & more & -> & Hlen).
    { destruct (AutoSize t); [|exact Hcap].
      destruct Hcap as [Hl Hall]; split; [simpl in Hl; lia | exact Hall]. }
    simpl; eexists _, _, _; split; [reflexivity|].
    simpl; congruence.
Qed.

Lemma wrapRow_ok (t : Tabulate) (cols : list Z) (next : TabulateRow) :
  capacities t cols (List.length (Elements next)) ->
  exists next' new_elements,
    wrapRow t cols next = Ok (next', new_elements)
    /\ List.length new_elements = List.length (Elements next).
Proof.
  intros Hcap; unfold wrapRow.
  destruct (wrapElements_ok t cols (Elements next) 0 Hcap)
    as (hs & rs & sp & H & Hlen).
  simpl in H; rewrite H; simpl.
  eexists _, _; split; [reflexivity | exact Hlen].
Qed.

(** Under such capacities no round of the row loop panics. *)
Lemma wrapLoop_no_panic (t : Tabulate) (cols : list Z) (fuel : nat) :
  (forall row, In row (Data t) ->
               capacities t cols (List.length (Elements row))) ->
  forall (i : nat) (next : TabulateRow) (arr : list TabulateRow) (p : panic),
    capacities t cols (List.length (Elements next)) ->
    wrapLoop fuel t cols (Z.of_nat i) next arr <> Some (Panicked p).
Proof.
  intros Hdata.
  induction fuel as [|fuel IH]; intros i next arr p Hnext; simpl wrapLoop;
    (destruct (Z.of_nat i <=? llen (Data t)); [|discriminate]);
    [discriminate|].
  destruct (wrapRow_ok t cols next Hnext) as (next' & ne & Hrow & Hlen).
  rewrite Hrow.
  destruct (Continuous next') eqn:Ec.
  - replace (Z.of_nat i - 1 + 1) with (Z.of_nat i) by lia.
    apply IH; simpl; rewrite Hlen; exact Hnext.
  - rewrite (wrapRow_keeps _ _ _ _ _ Hrow Ec) in *.
    unfold llen.
    destruct (Z.ltb_spec (Z.of_nat i + 1) (Z.of_nat (List.length (Data t)))).
    + replace (Z.of_nat i + 1) with (Z.of_nat (S i)) by lia.
      rewrite elemAt_nth.
      destruct (nth_error (Data t) (S i)) as [d|] eqn:Ed.
      * apply IH, Hdata; eapply nth_error_In; exact Ed.
      * apply nth_error_None in Ed; lia.
    + replace (Z.of_nat i + 1) with (Z.of_nat (S i)) by lia.
      destruct (Z.of_nat i >=? Z.of_nat (List.length (Data t)));
        apply IH; exact Hnext.
Qed.

(** On a table with a row, under capacities that are there and admit
    every rune, [wrapCellData] returns rows. *)
Lemma wrapCellData_returns (t : Tabulate) (cols : list Z) :
  Data t <> [] ->
  (forall row, In row (Data t) ->
               capacities t cols (List.length (Elements row))) ->
  exists out, wrapCellData t cols = Some (Ok out).
Proof.
  intros Hne Hdata.
  pose proof (wrapCellData_total t cols) as Htotal.
  unfold wrapCellData in *.
  change 0 with (Z.of_nat 0) in *; rewrite elemAt_nth in *.
  destruct (nth_error (Data t) 0) as [next|] eqn:En.
  - assert (Hnext : capacities t cols (List.length (Elements next)))
      by (apply Hdata; eapply nth_error_In; exact En).
    pose proof (wrapLoop_no_panic t cols (wrapFuel (Data t)) Hdata
                  0 next [] ) as Hnp.
    destruct (wrapLoop (wrapFuel (Data t)) t cols (Z.of_nat 0) next [])
      as [[out|p]|]; [exists out; reflexivity | | congruence].
    exfalso; exact (Hnp p Hnext eq_refl).
  - destruct (Data t); [congruence | discriminate].
Qed.

(** A newline at a byte offset at or beyond the capacity: whatever the
    width table, the cell is not split into the text before and the
    text after that newline. *)
Lemma newline_beyond_capacity (w : Z) (p q h r : gostring) (split : bool) :
  ~ In newline p ->
  w <= len p ->
  wrapCell w (p ++ newline :: q) = Ok (h, r, split) ->
  ~ (h = p /\ r = q).
Proof.
  intros Hp Hw; unfold wrapCell.
  rewrite (Index_first p q newline Hp).
  destruct (Z.ltb_spec (len p) w); [lia|].
  rewrite andb_false_r.
  destruct (StringWidth (p ++ newline :: q) >? w).
  - destruct (len (Truncate (p ++ newline :: q) w []) - 1 <? 0);
      [discriminate|].
    intros [= <- <- _] [Eh Er].
    rewrite Eh, sliceFrom_app in Er.
    apply (f_equal (@List.length rune)) in Er; simpl in Er; lia.
  - intros [= <- _ _] [Eh _].
    apply (f_equal (@List.length rune)) in Eh.
    rewrite length_app in Eh; simpl in Eh; lia.
Qed.

(** *** The wrapping pass on the store *)

Lemma overlap_sym (s s' : Slice) : overlap s s' = overlap s' s.
Proof.
  unfold overlap.
  destruct (Nat.ltb 0 (size s)), (Nat.ltb 0 (size s')),
    (Nat.ltb (base s) (base s' + size s')),
    (Nat.ltb (base s') (base s + size s)); reflexivity.
Qed.

Lemma overlap_cells (s s' : Slice) (a : nat) :
  overlap s s' = false ->
  (base s <= a < base s + size s)%nat ->
  ~ (base s' <= a < base s' + size s')%nat.
Proof.
  unfold overlap; intros H Ha Ha'.
  destruct (Nat.ltb_spec 0 (size s)); [|lia].
  destruct (Nat.ltb_spec 0 (size s')); [|lia].
  destruct (Nat.ltb_spec (base s) (base s' + size s')); [|lia].
  destruct (Nat.ltb_spec (base s') (base s + size s)); [|lia].
  discriminate.
Qed.

Lemma separate_apart (m : Store) (rows : list nat) :
  separate m rows = true -> apart m rows.
Proof.
  unfold apart; induction rows as [|p rest IH]; simpl.
  - intros _; repeat split; [constructor | contradiction | contradiction].
  - intros H.
    apply andb_true_iff in H as [H Hrest].
    apply andb_true_iff in H as [Hp Hall].
    destruct (IH Hrest) as (Hnd & Hal & Hov).
    rewrite forallb_forall in Hall.
    assert (Hq : forall q, In q rest ->
                 p <> q /\ overlap (elementsOf (rowAt m p))
                             (elementsOf (rowAt m q)) = false).
    { intros q Hin; specialize (Hall q Hin).
      apply andb_true_iff in Hall as [Hne Ho].
      apply negb_true_iff in Hne, Ho.
      apply Nat.eqb_neq in Hne; auto. }
    split; [|split].
    + constructor; [|exact Hnd].
      intros Hin; destruct (Hq p Hin) as [Hne _]; congruence.
    + intros q [<-|Hin]; auto.
    + intros q r [<-|Hq1] [<-|Hr1] Hne.
      * congruence.
      * apply Hq; exact Hr1.
      * rewrite overlap_sym; apply Hq; exact Hq1.
      * apply Hov; assumption.
Qed.

Lemma apart_frame (m m' : Store) (rows : list nat) :
  (forall q, elementsOf (rowAt m' q) = elementsOf (rowAt m q)) ->
  cellsUsed m' = cellsUsed m ->
  rowsUsed m' = rowsUsed m ->
  apart m rows -> apart m' rows.
Proof.
  intros He Hc Hr (Hnd & Hal & Hov); split; [exact Hnd|split].
  - intros p Hp; specialize (Hal p Hp); unfold allocated in *.
    rewrite He, Hc, Hr; exact Hal.
  - intros p q Hp Hq Hne; rewrite !He; apply Hov; assumption.
Qed.

Lemma apart_perm (m : Store) (rows rows' : list nat) :
  Permutation rows rows' -> apart m rows -> apart m rows'.
Proof.
  intros HP (Hnd & Hal & Hov); split; [|split].
  - eapply Permutation_NoDup; eassumption.
  - intros p Hp; apply Hal.
    eapply Permutation_in; [apply Permutation_sym|]; eassumption.
  - intros p q Hp Hq; apply Hov;
      (eapply Permutation_in; [apply Permutation_sym|]; eassumption).
Qed.

Lemma readCells_ext (m m' : Store) (s : Slice) :
  (forall a, (base s <= a < base s + size s)%nat -> cellAt m' a = cellAt m a) ->
  readCells m' s = readCells m s.
Proof.
  intros H; unfold readCells; apply map_ext_in.
  intros a Ha; apply in_seq in Ha; apply H; lia.
Qed.

(** The cell loop on the store computes what the cell loop on the
    values of the cells computes, and writes the heads and the flag of
    [next] only. *)
Lemma wrapCellsMem_spec (t : Tabulate) (cols : list Z) (next : nat) :
  forall (n a : nat) (i : Z) (m : Store),
    match wrapElements t cols i (map (cellAt m) (seq a n)) with
    | Panicked e => wrapCellsMem t cols next a i n m = Panicked e
    | Ok (heads, remainders, split) =>
        exists m',
          wrapCellsMem t cols next a i n m = Ok (remainders, m')
          /\ map (cellAt m') (seq a n) = heads
          /\ (forall b, (b < a \/ a + n <= b)%nat -> cellAt m' b = cellAt m b)
          /\ (forall q, q <> next -> rowAt m' q = rowAt m q)
          /\ elementsOf (rowAt m' next) = elementsOf (rowAt m next)
          /\ continuousOf (rowAt m' next)
             = (continuousOf (rowAt m next) || split)%bool
          /\ cellsUsed m' = cellsUsed m
          /\ rowsUsed m' = rowsUsed m
    end.
Proof.
  induction n as [|n IH]; intros a i m.
  - simpl; exists m; rewrite orb_false_r; repeat split; reflexivity.
  - cbn [seq map wrapElements wrapCellsMem].
    destruct (if AutoSize t then elemAt cols i else Ok (MaxSize t))
      as [w|e]; cbn [bind]; [|reflexivity].
    destruct (wrapCell w (cellAt m a)) as [[[head rem] split]|e] eqn:Ecell;
      cbn [bind]; [|reflexivity].
    set (m1 := if split then setContinuous (setCell m a head) next else m).
    assert (Ha : cellAt m1 a = head).
    { subst m1; destruct split; simpl.
      - rewrite Nat.eqb_refl; reflexivity.
      - symmetry; apply (wrapCell_unsplit _ _ _ _ Ecell). }
    assert (Hb : forall b, b <> a -> cellAt m1 b = cellAt m b).
    { intros b Hne; subst m1; destruct split; simpl; [|reflexivity].
      apply Nat.eqb_neq in Hne; rewrite Hne; reflexivity. }
    assert (Hq : forall q, q <> next -> rowAt m1 q = rowAt m q).
    { intros q Hne; subst m1; destruct split; simpl; [|reflexivity].
      apply Nat.eqb_neq in Hne; rewrite Hne; reflexivity. }
    assert (He : elementsOf (rowAt m1 next) = elementsOf (rowAt m next)).
    { subst m1; destruct split; simpl; [|reflexivity].
      rewrite Nat.eqb_refl; reflexivity. }
    assert (Hf : continuousOf (rowAt m1 next)
                 = (continuousOf (rowAt m next) || split)%bool).
    { subst m1; destruct split; simpl.
      - rewrite Nat.eqb_refl, orb_true_r; reflexivity.
      - rewrite orb_false_r; reflexivity. }
    assert (Hc : cellsUsed m1 = cellsUsed m)
      by (subst m1; destruct split; reflexivity).
    assert (Hr : rowsUsed m1 = rowsUsed m)
      by (subst m1; destruct split; reflexivity).
    clearbody m1.
    specialize (IH (S a) (i + 1) m1).
    replace (map (cellAt m1) (seq (S a) n))
      with (map (cellAt m) (seq (S a) n)) in IH
      by (apply map_ext_in; intros b Hin; apply in_seq in Hin;
          symmetry; apply Hb; lia).
    destruct (wrapElements t cols (i + 1) (map (cellAt m) (seq (S a) n)))
      as [[[heads rems] more]|e]; cbn [bind].
    + destruct IH as (m' & Hrun & Hheads & Hcells & Hrows & Hel & Hfl & Hcu
                      & Hru).
      exists m'; rewrite Hrun; cbn [bind].
      split; [reflexivity|]; split; [|split; [|split; [|split; [|split]]]].
      * rewrite Hheads, Hcells by lia; rewrite Ha; reflexivity.
      * intros b Hout; rewrite Hcells by lia; apply Hb; lia.
      * intros q Hne; rewrite Hrows by exact Hne; apply Hq; exact Hne.
      * congruence.
      * rewrite Hfl, Hf, orb_assoc; reflexivity.
      * split; congruence.
    + rewrite IH; reflexivity.
Qed.

Lemma wrapRowMem_spec (t : Tabulate) (cols : list Z) (p : nat) (m : Store) :
  match wrapRow t cols (readRow m p) with
  | Panicked e => wrapRowMem t cols p m = Panicked e
  | Ok (next', new_elements) =>
      exists m',
        wrapRowMem t cols p m = Ok (new_elements, m')
        /\ readRow m' p = next'
        /\ (forall q, q <> p ->
              overlap (elementsOf (rowAt m p)) (elementsOf (rowAt m q))
              = false ->
              readRow m' q = readRow m q)
        /\ (forall q, elementsOf (rowAt m' q) = elementsOf (rowAt m q))
        /\ cellsUsed m' = cellsUsed m
        /\ rowsUsed m' = rowsUsed m
  end.
Proof.
  unfold wrapRow, wrapRowMem, readRow at 1, readCells; cbn [Elements].
  pose proof (wrapCellsMem_spec t cols p (size (elementsOf (rowAt m p)))
                (base (elementsOf (rowAt m p))) 0 m) as H.
  destruct (wrapElements t cols 0
              (map (cellAt m)
                 (seq (base (elementsOf (rowAt m p)))
                    (size (elementsOf (rowAt m p))))))
    as [[[heads rems] split]|e]; cbn [bind]; [|exact H].
  destruct H as (m' & Hrun & Hheads & Hcells & Hrows & Hel & Hfl & Hcu & Hru).
  exists m'; split; [exact Hrun|].
  assert (Hall : forall q, elementsOf (rowAt m' q) = elementsOf (rowAt m q)).
  { intros q; destruct (Nat.eq_dec q p) as [->|Hne]; [exact Hel|].
    rewrite Hrows by exact Hne; reflexivity. }
  split; [|split; [|split; [exact Hall|split; assumption]]].
  - unfold readRow, readCells; rewrite Hel, Hheads, Hfl; reflexivity.
  - intros q Hne Hov; unfold readRow.
    rewrite Hrows by exact Hne; f_equal.
    apply readCells_ext; intros a Ha; apply Hcells.
    pose proof (overlap_cells _ _ a Hov) as Hd; lia.
Qed.

Lemma map_seq_cells (f : nat -> gostring) (cells : list gostring) :
  forall a : nat,
    (forall i, (i < List.length cells)%nat -> f (a + i)%nat = nth i cells []) ->
    map f (seq a (List.length cells)) = cells.
Proof.
  induction cells as [|x cells IH]; intros a H; [reflexivity|].
  cbn [List.length seq map]; f_equal.
  - rewrite <- (Nat.add_0_r a); apply (H O); simpl; lia.
  - apply IH; intros i Hi.
    replace (S a + i)%nat with (a + S i)%nat by lia.
    apply (H (S i)); simpl; lia.
Qed.

Lemma newRow_row (m : Store) (new_elements : list gostring) :
  readRow (snd (newRow m new_elements)) (fst (newRow m new_elements))
  = mkTabulateRow new_elements false.
Proof.
  unfold readRow, readCells, newRow; cbn [fst snd rowAt cellAt].
  rewrite Nat.eqb_refl; cbn [elementsOf continuousOf base size].
  f_equal; apply map_seq_cells; intros i Hi.
  destruct (Nat.leb_spec (cellsUsed m) (cellsUsed m + i)); [|lia].
  destruct (Nat.ltb_spec (cellsUsed m + i)
              (cellsUsed m + List.length new_elements)); [|lia].
  cbn [andb]; f_equal; lia.
Qed.

Lemma newRow_others (m : Store) (new_elements : list gostring) (q : nat) :
  allocated m q = true ->
  rowAt (snd (newRow m new_elements)) q = rowAt m q
  /\ readRow (snd (newRow m new_elements)) q = readRow m q.
Proof.
  unfold allocated; intros H; apply andb_true_iff in H as [Hq Hs].
  apply Nat.ltb_lt in Hq; apply Nat.leb_le in Hs.
  assert (Hrow : rowAt (snd (newRow m new_elements)) q = rowAt m q).
  { unfold newRow; cbn [snd rowAt].
    destruct (Nat.eqb_spec q (rowsUsed m)); [lia | reflexivity]. }
  split; [exact Hrow|].
  unfold readRow; rewrite Hrow; f_equal.
  apply readCells_ext; intros a Ha.
  unfold newRow; cbn [snd cellAt].
  destruct (Nat.leb_spec (cellsUsed m) a); [lia | reflexivity].
Qed.

Lemma newRow_apart (m : Store) (new_elements : list gostring)
    (rows : list nat) :
  apart m rows ->
  apart (snd (newRow m new_elements)) (fst (newRow m new_elements) :: rows).
Proof.
  intros (Hnd & Hal & Hov).
  assert (Hfresh : allocated (snd (newRow m new_elements))
                     (fst (newRow m new_elements)) = true).
  { unfold allocated, newRow; cbn [fst snd rowsUsed rowAt cellsUsed].
    rewrite Nat.eqb_refl; cbn [elementsOf base size].
    apply andb_true_iff; split; [apply Nat.ltb_lt | apply Nat.leb_le]; lia. }
  assert (Hold : forall q, In q rows ->
                   allocated (snd (newRow m new_elements)) q = true
                   /\ q <> fst (newRow m new_elements)
                   /\ overlap
                        (elementsOf (rowAt (snd (newRow m new_elements))
                                       (fst (newRow m new_elements))))
                        (elementsOf (rowAt (snd (newRow m new_elements)) q))
                      = false).
  { intros q Hq; pose proof (Hal q Hq) as Ha.
    destruct (newRow_others m new_elements q Ha) as [Hrow _].
    unfold allocated in Ha; apply andb_true_iff in Ha as [Hlt Hs].
    apply Nat.ltb_lt in Hlt; apply Nat.leb_le in Hs.
    split; [|split].
    - unfold allocated; rewrite Hrow.
      unfold newRow; cbn [snd rowsUsed cellsUsed].
      apply andb_true_iff; split; [apply Nat.ltb_lt | apply Nat.leb_le]; lia.
    - unfold newRow; cbn [fst]; lia.
    - rewrite Hrow; unfold newRow at 1 2; cbn [fst snd rowAt].
      rewrite Nat.eqb_refl; cbn [elementsOf].
      unfold overlap; cbn [base size].
      destruct (Nat.ltb_spec (base (elementsOf (rowAt m q)))
                  (cellsUsed m + List.length new_elements));
        destruct (Nat.ltb_spec (cellsUsed m)
                    (base (elementsOf (rowAt m q))
                     + size (elementsOf (rowAt m q))));
        rewrite ?andb_false_r; try reflexivity; lia. }
  split; [|split].
  - constructor; [|exact Hnd].
    intros Hin; destruct (Hold _ Hin) as (_ & Hne & _); congruence.
  - intros q [<-|Hq]; [exact Hfresh | apply Hold; exact Hq].
  - intros p q [<-|Hp] [<-|Hq] Hne.
    + congruence.
    + apply Hold; exact Hq.
    + rewrite overlap_sym; apply Hold; exact Hp.
    + destruct (newRow_others m new_elements p (Hal p Hp)) as [-> _].
      destruct (newRow_others m new_elements q (Hal q Hq)) as [-> _].
      apply Hov; assumption.
Qed.

Lemma apart_next (m : Store) (arr rest : list nat) (p q : nat) :
  apart m (arr ++ p :: rest) ->
  In q (arr ++ rest) ->
  q <> p
  /\ overlap (elementsOf (rowAt m p)) (elementsOf (rowAt m q)) = false.
Proof.
  intros (Hnd & _ & Hov) Hq.
  assert (Hne : q <> p).
  { intros ->; apply NoDup_remove_2 in Hnd; contradiction. }
  split; [exact Hne|].
  apply Hov; [| |congruence].
  - apply in_or_app; right; left; reflexivity.
  - apply in_app_or in Hq as [Hq|Hq]; apply in_or_app;
      [left | right; right]; exact Hq.
Qed.

(** The row loop on the store and the row loop on values run in step,
    as long as the rows returned so far, the current row and the rows
    to come share nothing. *)
Lemma wrapLoopMem_values (t : Tabulate) (cols : list Z) (data : list nat) :
  List.length (Data t) = List.length data ->
  forall (fuel i : nat) (p : nat) (arr : list nat) (m : Store),
    map (readRow m) (skipn (S i) data) = skipn (S i) (Data t) ->
    apart m (arr ++ p :: skipn (S i) data) ->
    match wrapLoop fuel t cols (Z.of_nat i) (readRow m p)
            (map (readRow m) arr) with
    | None => wrapLoopMem fuel t cols data (Z.of_nat i) p arr m = None
    | Some (Panicked e) =>
        wrapLoopMem fuel t cols data (Z.of_nat i) p arr m = Some (Panicked e)
    | Some (Ok out) =>
        exists ptrs m',
          wrapLoopMem fuel t cols data (Z.of_nat i) p arr m
          = Some (Ok (ptrs, m'))
          /\ map (readRow m') ptrs = out
    end.
Proof.
  intros Hlen; induction fuel as [|fuel IH]; intros i p arr m Hrest Hsep;
    cbn [wrapLoop wrapLoopMem]; unfold llen; rewrite Hlen;
    destruct (Z.leb_spec (Z.of_nat i) (Z.of_nat (List.length data)))
      as [Hi|Hi];
    try (exists arr, m; split; reflexivity); [reflexivity|].
  pose proof (wrapRowMem_spec t cols p m) as Hrow.
  destruct (wrapRow t cols (readRow m p)) as [[next' ne]|e];
    [|rewrite Hrow; reflexivity].
  destruct Hrow as (m1 & -> & Hp & Hothers & Hhdr & Hcu & Hru).
  assert (Hsep1 : apart m1 (arr ++ p :: skipn (S i) data))
    by (eapply apart_frame; eassumption).
  assert (Hkeep : forall q, In q (arr ++ skipn (S i) data) ->
                            readRow m1 q = readRow m q).
  { intros q Hq; destruct (apart_next _ _ _ _ _ Hsep Hq) as [Hne Hov].
    apply Hothers; assumption. }
  assert (Harr : map (readRow m1) arr = map (readRow m) arr).
  { apply map_ext_in; intros q Hq; apply Hkeep, in_or_app; left; exact Hq. }
  assert (Hrest1 : map (readRow m1) (skipn (S i) data)
                   = skipn (S i) (Data t)).
  { rewrite <- Hrest; apply map_ext_in; intros q Hq.
    apply Hkeep, in_or_app; right; exact Hq. }
  assert (Hflag : continuousOf (rowAt m1 p) = Continuous next')
    by (rewrite <- Hp; reflexivity).
  rewrite Hflag.
  assert (Happ : map (readRow m1) (arr ++ [p])
                 = map (readRow m) arr ++ [next']).
  { rewrite map_app, Harr; simpl; rewrite Hp; reflexivity. }
  destruct (Continuous next') eqn:Ec.
  - replace (Z.of_nat i - 1 + 1) with (Z.of_nat i) by lia.
    destruct (newRow m1 ne) as [f m2] eqn:Enew.
    pose proof (newRow_row m1 ne) as Hf.
    pose proof (newRow_apart m1 ne _ Hsep1) as Hsep2.
    pose proof (newRow_others m1 ne) as Hold.
    rewrite Enew in Hf, Hsep2, Hold; cbn [fst snd] in Hf, Hsep2, Hold.
    assert (Hal : forall q, In q (arr ++ p :: skipn (S i) data) ->
                            readRow m2 q = readRow m1 q).
    { intros q Hq; apply Hold.
      destruct Hsep1 as (_ & Hal & _); apply Hal; exact Hq. }
    specialize (IH i f (arr ++ [p]) m2).
    rewrite Hf in IH.
    replace (map (readRow m2) (arr ++ [p]))
      with (map (readRow m) arr ++ [next']) in IH.
    + apply IH.
      * rewrite <- Hrest1; apply map_ext_in; intros q Hq.
        apply Hal, in_or_app; right; right; exact Hq.
      * eapply apart_perm; [|exact Hsep2].
        rewrite <- app_assoc; cbn [app].
        change (p :: f :: skipn (S i) data)
          with ([p] ++ f :: skipn (S i) data).
        rewrite app_assoc.
        etransitivity; [|apply Permutation_middle].
        rewrite <- app_assoc; reflexivity.
    + rewrite <- Happ; symmetry; apply map_ext_in; intros q Hq.
      apply Hal; apply in_app_or in Hq as [Hq|[<-|[]]]; apply in_or_app;
        [left; exact Hq | right; left; reflexivity].
  - destruct (Z.ltb_spec (Z.of_nat i + 1) (Z.of_nat (List.length data)))
      as [Hlt|Hge].
    + replace (Z.of_nat i + 1) with (Z.of_nat (S i)) by lia.
      rewrite !elemAt_nth.
      destruct (nth_error data (S i)) as [d|] eqn:Ed;
        [|apply nth_error_None in Ed; lia].
      destruct (nth_error (Data t) (S i)) as [dv|] eqn:Edv;
        [|apply nth_error_None in Edv; lia].
      rewrite (skipn_nth_error _ _ _ Ed) in Hrest1, Hsep1.
      rewrite (skipn_nth_error _ _ _ Edv) in Hrest1.
      cbn [map] in Hrest1; injection Hrest1 as Hd Hrest2.
      specialize (IH (S i) d (arr ++ [p]) m1 Hrest2).
      rewrite Hd, Happ in IH; apply IH.
      rewrite <- app_assoc; exact Hsep1.
    + destruct (Z.geb_spec (Z.of_nat i) (Z.of_nat (List.length data)))
        as [Hend|Hin].
      * rewrite wrapLoop_exit by (unfold llen; lia).
        destruct fuel; cbn [wrapLoopMem]; unfold llen;
          (destruct (Z.leb_spec (Z.of_nat i + 1)
                       (Z.of_nat (List.length data))); [lia|]);
          exists (arr ++ [p]), m1; split; auto.
      * replace (Z.of_nat i + 1) with (Z.of_nat (S i)) by lia.
        specialize (IH (S i) p arr m1).
        rewrite Hp, Harr in IH; apply IH.
        -- rewrite !skipn_all2 by lia; reflexivity.
        -- rewrite skipn_all2 in * by lia; exact Hsep1.
Qed.

(** On rows that share nothing, the rows that the pass on the store
    returns, read after it, are the rows that the pass on the values
    returns. *)
Lemma wrapCellDataMem_values (t : Tabulate) (cols : list Z)
    (data ptrs : list nat) (m m' : Store) :
  Data t = map (readRow m) data ->
  separate m data = true ->
  wrapCellDataMem t cols data m = Some (Ok (ptrs, m')) ->
  wrapCellData t cols = Some (Ok (map (readRow m') ptrs)).
Proof.
  intros Hdata Hsep; apply separate_apart in Hsep.
  unfold wrapCellDataMem, wrapCellData.
  change 0 with (Z.of_nat 0); rewrite !elemAt_nth.
  destruct data as [|p rest]; [discriminate|].
  rewrite Hdata; cbn [map nth_error].
  pose proof (wrapLoopMem_values t cols (p :: rest)) as H.
  rewrite Hdata, !length_map in H.
  specialize (H eq_refl (wrapFuel (map (readRow m) (p :: rest))) O p [] m).
  cbn [map skipn app] in H.
  specialize (H eq_refl Hsep).
  destruct (wrapLoop _ _ _ _ _ _) as [[out|e]|].
  - destruct H as (ptrs' & m2 & -> & <-); intros [= <- <-]; reflexivity.
  - rewrite H; discriminate.
  - rewrite H; discriminate.
Qed.

(** *** The properties of the wrapping pass *)


Lemma wrapCellData_flagged_chains (t : Tabulate) (cols : list Z)
    (out : list TabulateRow) :
  wrapCellData t cols = Some (Ok out) ->
  exists chunks,
    out = List.concat chunks
    /\ Forall2 (fun row l => chain t cols row l /\ flagged l)
         (Data t) chunks.
Proof.
  intros Hout.
  destruct (wrapCellData_chains _ _ _ Hout) as (chunks & -> & Hch).
  exists chunks; split; [reflexivity|].
  clear Hout.
  induction Hch as [|row l data chunks' Hl _ IH];
    [constructor | constructor; [split|exact IH]].
  - exact Hl.
  - eapply chain_flagged; exact Hl.
Qed.

(** C5 (as amended): for a table whose rows are distinct objects that
    share no cell, the rows returned, as they are in memory after the
    pass, are the concatenation, in the order of the table, of one
    chain per input row.  A chain starts with the input row as the cell
    loop leaves it (holding the heads); when a cell of it was split
    that row carries [Continuous = true] and the chain of the fresh row
    of remainders follows it at once.  So within a chain every row but
    the last carries [Continuous = true] and the last one
    [Continuous = false]. *)
Theorem wrap_emits_flagged_chains (t : Tabulate) (cols : list Z)
    (data ptrs : list nat) (m m' : Store) :
  Data t = map (readRow m) data ->
  separate m data = true ->
  wrapCellDataMem t cols data m = Some (Ok (ptrs, m')) ->
  exists chunks,
    map (readRow m') ptrs = List.concat chunks
    /\ Forall2 (fun row l => chain t cols row l /\ flagged l)
         (Data t) chunks.
Proof.
  intros Hdata Hsep Hrun.
  apply wrapCellData_flagged_chains.
  eapply wrapCellDataMem_values; eassumption.
Qed.

(** C7 (as amended): a cell whose first newline lies at a byte offset
    strictly below the capacity is split exactly at that newline,
    whatever its width and wherever its blanks are: the head is the text
    before the newline, the remainder the text after it. *)
Theorem newline_split (w : Z) (p q : gostring) :
  ~ In newline p ->
  len p < w ->
  wrapCell w (p ++ newline :: q) = Ok (p, q, true).
Proof.
  intros Hp Hw; unfold wrapCell.
  rewrite (Index_first p q newline Hp).
  pose proof (len_nonneg p).
  destruct (Z.eqb_spec (len p) (-1)); [lia|].
  destruct (Z.ltb_spec (len p) w); [|lia].
  simpl negb; cbv iota; simpl andb; cbv iota.
  rewrite sliceTo_app.
  change (p ++ newline :: q) with (p ++ [newline] ++ q).
  rewrite app_assoc.
  replace (len p + 1) with (len (p ++ [newline]))
    by (rewrite len_app; reflexivity).
  rewrite sliceFrom_app; reflexivity.
Qed.

(** C8 (as amended): in a width-based cut nothing is discarded, the
    head followed by the remainder is the cell.  The head is the cell
    truncated to the capacity and, when the truncated text holds a
    blank, cut back to end with its last blank: that blank is the last
    character of the head. *)
Theorem width_cut_keeps_blank (w : Z) (e h r : gostring) (split : bool) :
  strings.Index e newline = -1 \/ w <= strings.Index e newline ->
  StringWidth e > w ->
  wrapCell w e = Ok (h, r, split) ->
  split = true
  /\ h ++ r = e
  /\ exists tail,
       Truncate e w [] = h ++ tail
       /\ ~ In space tail
       /\ (In space (Truncate e w []) -> exists h', h = h' ++ [space])
       /\ (~ In space (Truncate e w []) -> tail = []).
Proof.
  intros Hnl Hwide; unfold wrapCell.
  assert (Enl : negb (strings.Index e newline =? -1)
                && (strings.Index e newline <? w) = false).
  { destruct Hnl as [->|Hnl]; [reflexivity|].
    apply andb_false_iff; right; apply Z.ltb_ge; exact Hnl. }
  rewrite Enl.
  destruct (Z.gtb_spec (StringWidth e) w); [|lia].
  destruct (len (Truncate e w []) - 1 <? 0); [discriminate|].
  fold (widthHead (Truncate e w [])).
  intros [= <- <- <-].
  destruct (widthHead_spec (Truncate e w [])) as (tail & Htr & Htail).
  destruct (Truncate_prefix e w) as [rest Hrest].
  split; [reflexivity|]; split.
  - remember (Truncate e w []) as tr eqn:Etr.
    remember (widthHead tr) as hd eqn:Ehd.
    rewrite Hrest, Htr, <- app_assoc, sliceFrom_app; reflexivity.
  - exists tail; split; [exact Htr | exact Htail].
Qed.

(** C6: the wrapping pass and [Render] come to an end for every table
    and all capacities (with the rows, or with a panic), and every split
    leaves a remainder strictly shorter than the cell it came from.  On
    a table with a row, under capacities that are there and admit every
    rune, the pass ends with the rows. *)
Theorem wrapping_terminates (g : Globals) (term : termbox) (t : Tabulate)
    (cols : list Z) (format : option string) :
  wrapCellData t cols <> None
  /\ Render g term t format <> None
  /\ (forall (w : Z) (e h r : gostring),
        wrapCell w e = Ok (h, r, true) ->
        (List.length r < List.length e)%nat)
  /\ (Data t <> [] ->
      (forall row, In row (Data t) ->
                   capacities t cols (List.length (Elements row))) ->
      exists out, wrapCellData t cols = Some (Ok out)).
Proof.
  split; [apply wrapCellData_total|].
  split; [|split; [apply wrapCell_shrinks | apply wrapCellData_returns]].
  unfold Render.
  destruct (renderPrepare g t format) as [t'|p]; [|discriminate].
  unfold renderColumns.
  destruct (AutoSize t').
  - destruct (autoSize g term t' (Headers t') _) as [cols'|p];
      [|discriminate].
    pose proof (wrapCellData_total t' cols').
    destruct (wrapCellData t' cols') as [[data|p]|];
      [discriminate | discriminate | congruence].
  - destruct (WrapStrings t'); [|discriminate].
    pose proof (wrapCellData_total t' []).
    destruct (wrapCellData t' []) as [[data|p]|];
      [discriminate | discriminate | congruence].
Qed.

End WrapFacts.

(** ** Facts about widths, rows and [Render] *)

Section LayoutFacts.
Context {c : Condition}.

(** *** Natural widths *)

Lemma widthStep_fold (i : nat) (data : list TabulateRow) :
  forall w current_max : Z,
    fold_left (widthStep i) data (w, current_max) =
    match cellWidths i data with
    | [] => (w, current_max)
    | ws => (fold_left Z.max ws current_max, fold_left Z.max ws current_max)
    end.
Proof.
  induction data as [|item data IH]; intros w cm; simpl; [reflexivity|].
  destruct (nth_error (Elements item) i) as [element|]; simpl.
  - assert (Hm : (if StringWidth element >? cm
                  then (StringWidth element, StringWidth element)
                  else (cm, cm))
                 = (Z.max cm (StringWidth element),
                    Z.max cm (StringWidth element))).
    { destruct (Z.gtb_spec (StringWidth element) cm);
        [rewrite Z.max_r by lia | rewrite Z.max_l by lia]; reflexivity. }
    rewrite Hm, IH.
    destruct (cellWidths i data); reflexivity.
  - apply IH.
Qed.

(** The width of a column: the largest of the header and the cells of
    the column when a row has a cell there, and 0 when no row has. *)
Lemma columnWidth_spec (i : nat) (header : gostring)
    (data : list TabulateRow) :
  columnWidth i header data =
  match cellWidths i data with
  | [] => 0
  | ws => fold_left Z.max ws (StringWidth header)
  end.
Proof.
  unfold columnWidth; rewrite widthStep_fold.
  destruct (cellWidths i data); reflexivity.
Qed.

Lemma getWidthsFrom_nth (headers : list gostring) (data : list TabulateRow) :
  forall (k i : nat) (h : gostring),
    nth_error headers i = Some h ->
    nth_error (getWidthsFrom k headers data) i
    = Some (columnWidth (k + i) h data).
Proof.
  induction headers as [|h0 headers IH]; intros k [|i] h; simpl;
    try discriminate.
  - intros [= ->]; rewrite Nat.add_0_r; reflexivity.
  - intros H; rewrite (IH (S k) i h H).
    replace (S k + i)%nat with (k + S i)%nat by lia; reflexivity.
Qed.

(** Where some row has a cell in column [i], the natural width is the
    largest of the header's width and the widths of these cells. *)
Lemma getWidths_column (headers : list gostring) (data : list TabulateRow)
    (i : nat) (h : gostring) :
  nth_error headers i = Some h ->
  cellWidths i data <> [] ->
  nth_error (getWidths headers data) i
  = Some (fold_left Z.max (cellWidths i data) (StringWidth h)).
Proof.
  intros Hh Hc; unfold getWidths.
  rewrite (getWidthsFrom_nth _ _ 0 i h Hh), columnWidth_spec; simpl.
  destruct (cellWidths i data); [congruence | reflexivity].
Qed.

(** *** Rows *)

Lemma rowCells_nth (t : Tabulate) (elements : list gostring)
    (padded_widths : list Z) :
  forall (k i : nat) (width : Z),
    nth_error padded_widths i = Some width ->
    nth_error (rowCells t elements padded_widths k) i
    = Some (rowCell t elements (k + i) width).
Proof.
  induction padded_widths as [|w0 ws IH]; intros k [|i] width; simpl;
    try discriminate.
  - intros [= ->]; rewrite Nat.add_0_r; reflexivity.
  - intros H; rewrite (IH (S k) i width H).
    replace (S k + i)%nat with (k + S i)%nat by lia; reflexivity.
Qed.

Lemma padRow_nth (cells : list gostring) (padding : Z) (i : nat) :
  nth_error (padRow cells padding) i
  = option_map (fun el => Write (Write (Write [] [space] padding) el 1)
                            [space] padding)
      (nth_error cells i).
Proof.
  unfold padRow; destruct cells as [|x cells].
  - destruct i; reflexivity.
  - replace (llen (x :: cells) <? 1) with false
      by (symmetry; apply Z.ltb_ge; unfold llen; simpl List.length; lia).
    apply nth_error_map.
Qed.

Lemma blanks_space (n : Z) (x : rune) : In x (blanks n) -> x = space.
Proof.
  unfold blanks, Write; simpl.
  induction (Z.to_nat n) as [|k IH]; simpl; [tauto|].
  intros [H|H]; [congruence | exact (IH H)].
Qed.

Lemma blanks_not_nil (n : Z) :
  gostring_eqb (blanks n ++ blanks n) (str " nil ") = false.
Proof.
  destruct (gostring_eqb (blanks n ++ blanks n) (str " nil ")) eqn:E;
    [|reflexivity].
  apply gostring_eqb_eq in E.
  assert (H : In 110 (blanks n ++ blanks n))
    by (rewrite E; vm_compute; tauto).
  apply in_app_or in H.
  destruct H as [H|H]; apply blanks_space in H; discriminate H.
Qed.

(** C9 (as amended): in a rendered data row, a column for which the row
    has no cell, and a cell holding the marker [nil] under a padding
    unit of 1, are rendered as the configured empty-cell placeholder,
    aligned into the padded width of the column; a cell whose content
    is the empty string is rendered as its own padding blanks, aligned
    the same way, and not as the placeholder. *)
Theorem placeholder_cells (t : Tabulate) (cells : list gostring)
    (padded_widths : list Z) (i : nat) (width : Z) :
  nth_error padded_widths i = Some width ->
  let elements := padRow cells (Padding (Format t)) in
  let rendered := nth_error (rowCells t elements padded_widths 0) i in
  (nth_error cells i = None ->
   rendered = Some (getAlignFunc t width (EmptyVar t)))
  /\ (nth_error cells i = Some (str "nil") -> Padding (Format t) = 1 ->
      rendered = Some (getAlignFunc t width (EmptyVar t)))
  /\ (nth_error cells i = Some [] ->
      rendered = Some (getAlignFunc t width
                         (blanks (Padding (Format t))
                          ++ blanks (Padding (Format t))))).
Proof.
  intros Hw elements rendered; subst elements rendered.
  rewrite (rowCells_nth _ _ _ 0 i width Hw); simpl Nat.add.
  unfold rowCell; rewrite padRow_nth.
  split; [|split].
  - intros ->; reflexivity.
  - intros -> ->; reflexivity.
  - intros ->; simpl option_map.
    assert (E : Write (Write (Write [] [space] (Padding (Format t))) [] 1)
                  [space] (Padding (Format t))
                = blanks (Padding (Format t)) ++ blanks (Padding (Format t))).
    { unfold blanks, Write; simpl; rewrite !app_nil_r; reflexivity. }
    rewrite E, blanks_not_nil; reflexivity.
Qed.

(** *** Lines *)

Lemma lineCells_cols (g : Globals) (l : Line) (padded_widths rest : list Z) :
  forall pre : list Z,
    List.length padded_widths = List.length rest ->
    lineCells g padded_widths (llen pre) (pre ++ rest) l
    = Ok (map (fun col => Write [] (line_hline l) (int64 (col + MIN_PADDING g)))
            rest).
Proof.
  revert rest; induction padded_widths as [|w ws IH];
    intros [|col rest] pre; simpl; try discriminate; [reflexivity|].
  intros [= Hlen].
  unfold llen at 1; rewrite elemAt_nth, nth_error_app2 by lia.
  rewrite Nat.sub_diag; simpl.
  replace (llen pre + 1) with (llen (pre ++ [col]))
    by (unfold llen; rewrite length_app; simpl; lia).
  specialize (IH rest (pre ++ [col]) Hlen).
  rewrite <- app_assoc in IH; simpl in IH; rewrite IH; reflexivity.
Qed.

(** The border line that [Render] builds for the columns [cols]. *)
Lemma buildLine_cols (g : Globals) (t : Tabulate) (cols : list Z) (l : Line) :
  buildLine g (paddedWidths g t cols) cols l
  = Ok (line_begin l
        ++ joinCells
             (map (fun col =>
                     Write [] (line_hline l) (int64 (col + MIN_PADDING g)))
                cols)
             (line_sep l)
        ++ line_end l).
Proof.
  unfold buildLine.
  pose proof (lineCells_cols g l (paddedWidths g t cols) cols []) as H.
  unfold llen in H; simpl in H.
  rewrite H by (unfold paddedWidths; apply length_map).
  reflexivity.
Qed.

(** C10: [SetAutoSize], called with [true] or with [false] on any
    table, leaves the package variable [MIN_PADDING], 5 at start, at 2;
    from then on every table is rendered with column widths padded by
    [2 * Padding] and border segments of [width + 2] fill glyphs, where
    the initial state gives [5 * Padding] and [width + 5]. *)
Theorem SetAutoSize_changes_MIN_PADDING (g : Globals) (t : Tabulate)
    (autosize : bool) (other : Tabulate) (cols : list Z) (l : Line) :
  let g' := fst (SetAutoSize g t autosize) in
  MIN_PADDING initGlobals = 5
  /\ MIN_PADDING g' = 2
  /\ AutoSize (snd (SetAutoSize g t autosize)) = autosize
  /\ paddedWidths g' other cols
     = map (fun col => int64 (col + 2 * Padding (Format other))) cols
  /\ paddedWidths initGlobals other cols
     = map (fun col => int64 (col + 5 * Padding (Format other))) cols
  /\ buildLine g' (paddedWidths g' other cols) cols l
     = Ok (line_begin l
           ++ joinCells
                (map (fun col => Write [] (line_hline l) (int64 (col + 2)))
                   cols)
                (line_sep l)
           ++ line_end l)
  /\ buildLine initGlobals (paddedWidths initGlobals other cols) cols l
     = Ok (line_begin l
           ++ joinCells
                (map (fun col => Write [] (line_hline l) (int64 (col + 5)))
                   cols)
                (line_sep l)
           ++ line_end l).
Proof.
  intros g'; repeat split; try reflexivity; apply buildLine_cols.
Qed.

(** *** Fatal conditions *)

Lemma renderPrepare_AutoSize (g : Globals) (t t' : Tabulate)
    (format : option string) :
  renderPrepare g t format = Ok t' -> AutoSize t' = AutoSize t.
Proof.
  unfold renderPrepare.
  destruct (llen (Headers t) <? 1).
  - destruct (sliceFrom1 (Data t)) as [rest|p]; simpl; [|discriminate].
    destruct (elemAt (Data t) 0) as [first|p]; simpl; [|discriminate].
    destruct format as [name|]; simpl.
    + destruct (llen rest <? 1); [discriminate|].
      destruct (elemAt rest 0) as [f|p]; simpl; [|discriminate].
      destruct (_ <? _); intros [= <-]; reflexivity.
    + destruct (llen rest <? 1); [discriminate|].
      destruct (elemAt rest 0) as [f|p]; simpl; [|discriminate].
      destruct (_ <? _); intros [= <-]; reflexivity.
  - simpl; destruct format as [name|]; simpl.
    + destruct (llen (Data t) <? 1); [discriminate|].
      destruct (elemAt (Data t) 0) as [f|p]; simpl; [|discriminate].
      destruct (_ <? _); intros [= <-]; reflexivity.
    + destruct (llen (Data t) <? 1); [discriminate|].
      destruct (elemAt (Data t) 0) as [f|p]; simpl; [|discriminate].
      destruct (_ <? _); intros [= <-]; reflexivity.
Qed.

Lemma renderPrepare_noRowLeft (g : Globals) (t : Tabulate)
    (format : option string) :
  noRowLeft t = true ->
  renderPrepare g t format = Panicked (PanicString "No Data specified").
Proof.
  unfold noRowLeft, renderPrepare.
  destruct (llen (Headers t) <? 1).
  - intros H; destruct (Data t) as [|first [|second rest]].
    + discriminate.
    + destruct format; reflexivity.
    + apply Z.eqb_eq in H; unfold llen in H; simpl List.length in H; lia.
  - intros H; simpl.
    destruct format; simpl; rewrite H; reflexivity.
Qed.

Lemma renderPrepare_rows (g : Globals) (t : Tabulate)
    (format : option string) :
  noDataRows t = false -> exists t', renderPrepare g t format = Ok t'.
Proof.
  unfold noDataRows, renderPrepare.
  assert (Hc : forall (A : Type) (x : A) (l : list A),
             (llen (x :: l) <? 1) = false).
  { intros A x l; apply Z.ltb_ge; unfold llen; simpl List.length; lia. }
  destruct (llen (Headers t) <? 1).
  - destruct (Data t) as [|row0 [|first rest]]; [discriminate..|]; intros _.
    unfold sliceFrom1; rewrite Hc.
    simpl; destruct format; simpl; rewrite Hc; simpl;
      destruct (_ <? _); eexists; reflexivity.
  - destruct (Data t) as [|first rest] eqn:Ed; [discriminate|]; intros _.
    simpl; destruct format; simpl; rewrite Ed, Hc; simpl;
      destruct (_ <? _); eexists; reflexivity.
Qed.

(** C3 (as amended): when no row is left to render under the header, or
    when rows are there, autosizing is requested and the terminal cannot
    be opened, [Render] panics, with the message ["No Data specified"]
    or with the error of [termbox.Init], before it has assembled any
    text: it has no error result, and the caller gets no text. *)
Theorem fatal_conditions_panic (g : Globals) (term : termbox) (t : Tabulate)
    (format : option string) (p : panic) :
  fatalCondition term t = Some p ->
  Render g term t format = Some (Panicked p).
Proof.
  unfold fatalCondition; intros H; unfold Render.
  destruct (noRowLeft t) eqn:Hn.
  - injection H as <-.
    rewrite (renderPrepare_noRowLeft g t format Hn); reflexivity.
  - destruct (noDataRows t) eqn:Hd; [discriminate|].
    destruct (AutoSize t) eqn:Ha; [|discriminate].
    destruct term as [err|width height]; [|discriminate].
    injection H as <-.
    destruct (renderPrepare_rows g t format Hd) as [t' Hp]; rewrite Hp.
    unfold renderColumns.
    rewrite (renderPrepare_AutoSize _ _ _ _ Hp), Ha; reflexivity.
Qed.

End LayoutFacts.

(** ** The code on concrete tables *)

Section Concrete.
#[local] Existing Instance DefaultCondition.
Import Examples.

(** A table of one row in the grid format: columns of widths 8 and 10,
    each padded by [MIN_PADDING * Padding = 5]. *)
Example render_grid :
  option_map (fun r => match r with Ok (text, _) => Ok text
                                  | Panicked p => Panicked p end)
    (Render initGlobals (Size 80 24) jonSnow (Some "grid"%string))
  = Some (Ok (str "+-------------+---------------+" ++ [newline]
              ++ str "|        Name |          City |" ++ [newline]
              ++ str "+=============+===============+" ++ [newline]
              ++ str "|    Jon Snow |    Winterfell |" ++ [newline]
              ++ str "+-------------+---------------+" ++ [newline])).
Proof. vm_compute; reflexivity. Qed.

(** *** Wrapping twice *)



(** *** Flags *)

(** C5 (counterexample): the row holding the head ["aaaa "] is returned
    with [Continuous = true] and the row holding the remainder ["bbbb"]
    with [Continuous = false]. *)
Lemma heads_row_is_flagged :
  exists head tail,
    wrapCellData twoWords [] = Some (Ok [head; tail])
    /\ Elements head = [str "aaaa "] /\ Continuous head = true
    /\ Elements tail = [str "bbbb"] /\ Continuous tail = false.
Proof.
  exists (mkTabulateRow [str "aaaa "] true), (mkTabulateRow [str "bbbb"] false).
  repeat split.
Qed.

Lemma wrap_emits_flagged_chains_witness :
  exists chunks,
    map (readRow (snd twoWordsWrapped)) (fst twoWordsWrapped)
    = List.concat chunks
    /\ Forall2 (fun row l => chain twoWords [] row l /\ flagged l)
         (Data twoWords) chunks.
Proof.
  apply (wrap_emits_flagged_chains twoWords []
           (fst twoWordsStore) (fst twoWordsWrapped)
           (snd twoWordsStore) (snd twoWordsWrapped));
    reflexivity.
Defined.

(** Two rows over one cell: the first row is split, and the overwritten
    cell is then read for the second row, which is returned as the head
    of the first; three rows come back where rows of their own give
    four. *)
Example shared_rows_wrapped :
  separate sharedStore [0; 1]%nat = false
  /\ map (readRow sharedStore) [0; 1]%nat = Data sharedRows
  /\ (exists ptrs m',
        wrapCellDataMem sharedRows [] [0; 1]%nat sharedStore
        = Some (Ok (ptrs, m'))
        /\ map (readRow m') ptrs
           = [mkTabulateRow [str "aaaa "] true;
              mkTabulateRow [str "bbbb"] false;
              mkTabulateRow [str "aaaa "] false])
  /\ wrapCellData sharedRows []
     = Some (Ok [mkTabulateRow [str "aaaa "] true;
                 mkTabulateRow [str "bbbb"] false;
                 mkTabulateRow [str "aaaa "] true;
                 mkTabulateRow [str "bbbb"] false]).
Proof.
  split; [reflexivity|]; split; [reflexivity|]; split; [|reflexivity].
  eexists _, _; split; reflexivity.
Qed.

(** *** Termination *)

Lemma wrapping_terminates_witness :
  wrapCellData twoWords [] <> None
  /\ Render initGlobals (Size 80 24) twoWords None <> None
  /\ (List.length (str "world") < List.length (str "hello world"))%nat
  /\ exists out, wrapCellData twoWords [] = Some (Ok out).
Proof.
  destruct (wrapping_terminates initGlobals (Size 80 24) twoWords [] None)
    as (Hwrap & Hrender & Hshrink & Hrows).
  split; [exact Hwrap|]; split; [exact Hrender|]; split.
  - apply (Hshrink 8 (str "hello world") (str "hello ") (str "world")).
    reflexivity.
  - apply Hrows; [discriminate|].
    intros row _; split; [vm_compute; discriminate|].
    intros r; simpl; destruct (zeroWidthRune r), (wideRune r); lia.
Defined.

(** *** Newlines *)

(** C7 (counterexample): in ["abcd \nfgh"] the newline is at byte
    offset 5, where five columns end; under capacity 5 the cell is over
    capacity and is not split at the newline: the head is the text
    before it and the newline starts the remainder. *)
Lemma newline_at_capacity_not_split :
  strings.Index newlineAtFive newline = 5
  /\ StringWidth newlineAtFive > 5
  /\ wrapCell 5 newlineAtFive
     = Ok (str "abcd ", newline :: str "fgh", true).
Proof. repeat split. Qed.

(** Where bytes and columns differ: three wide glyphs of three bytes
    each put the newline at column 6 and at byte offset 9; under
    capacity 8 the guard compares the byte offset, the cell is cut by
    width and the newline stays inside the head. *)
Example newline_after_wide_glyphs :
  let cell := [26085; 26412; 35486] ++ newline :: str "abc" in
  StringWidth [26085; 26412; 35486] = 6
  /\ strings.Index cell newline = 9
  /\ wrapCell 8 cell
     = Ok ([26085; 26412; 35486] ++ newline :: str "ab", str "c", true).
Proof. repeat split. Qed.

Lemma newline_split_witness :
  wrapCell 5 (str "abc" ++ newline :: str "fgh")
  = Ok (str "abc", str "fgh", true).
Proof.
  apply (newline_split 5 (str "abc") (str "fgh")).
  - vm_compute; intuition discriminate.
  - reflexivity.
Defined.

(** *** Blanks *)

(** C8 (counterexample): ["hello world"] under capacity 8 is truncated
    to ["hello wo"] and cut back to ["hello "]: the blank is the last
    character of the head. *)
Lemma blank_kept_in_head :
  Truncate (str "hello world") 8 [] = str "hello wo"
  /\ wrapCell 8 (str "hello world") = Ok (str "hello ", str "world", true)
  /\ In space (str "hello ").
Proof. repeat split; vm_compute; tauto. Qed.

Lemma width_cut_keeps_blank_witness :
  true = true
  /\ str "hello " ++ str "world" = str "hello world"
  /\ exists tail,
       Truncate (str "hello world") 8 [] = str "hello " ++ tail
       /\ ~ In space tail
       /\ (In space (Truncate (str "hello world") 8 [])
           -> exists h', str "hello " = h' ++ [space])
       /\ (~ In space (Truncate (str "hello world") 8 []) -> tail = []).
Proof.
  apply (width_cut_keeps_blank 8 (str "hello world")
           (str "hello ") (str "world") true).
  - left; reflexivity.
  - reflexivity.
  - reflexivity.
Defined.

(** *** Empty cells *)

(** C9 (counterexample): with the placeholder ["None "], right
    alignment and a padded width of 9, a row whose only cell is the
    empty string is rendered as nine blanks between the delimiters,
    where the placeholder would read ["    None "]. *)
Lemma empty_cell_not_placeholder :
  buildRow withPlaceholder (padRow emptyCell (Padding (Format withPlaceholder)))
    [9] [4] (DataRow (Format withPlaceholder))
  = str "|         |"
  /\ getAlignFunc withPlaceholder 9 (EmptyVar withPlaceholder)
     = str "    None ".
Proof. split; reflexivity. Qed.

Lemma placeholder_cells_witness :
  let elements := padRow emptyCell (Padding (Format withPlaceholder)) in
  let rendered := nth_error (rowCells withPlaceholder elements [9] 0) 0 in
  (nth_error emptyCell 0 = None ->
   rendered = Some (getAlignFunc withPlaceholder 9 (EmptyVar withPlaceholder)))
  /\ (nth_error emptyCell 0 = Some (str "nil") ->
      Padding (Format withPlaceholder) = 1 ->
      rendered
      = Some (getAlignFunc withPlaceholder 9 (EmptyVar withPlaceholder)))
  /\ (nth_error emptyCell 0 = Some [] ->
      rendered
      = Some (getAlignFunc withPlaceholder 9
                (blanks (Padding (Format withPlaceholder))
                 ++ blanks (Padding (Format withPlaceholder))))).
Proof.
  apply (placeholder_cells withPlaceholder emptyCell [9] 0 9).
  reflexivity.
Defined.

(** *** Fatal conditions *)

(** C3 (counterexample): a table with a header and no row, and a table
    to autosize on a terminal that cannot be opened: [Render] panics,
    with the message and with the error of [termbox.Init]. *)
Lemma render_fatal_is_a_panic :
  Render initGlobals (Size 80 24) headerOnly None
  = Some (Panicked (PanicString "No Data specified"))
  /\ Render (fst autosized) (InitError "open /dev/tty") (snd autosized)
       (Some "grid"%string)
     = Some (Panicked (PanicError "open /dev/tty")).
Proof. split; reflexivity. Qed.

Lemma fatal_conditions_panic_witness :
  Render initGlobals (Size 80 24) headerOnly None
  = Some (Panicked (PanicString "No Data specified")).
Proof.
  apply (fatal_conditions_panic initGlobals (Size 80 24) headerOnly None).
  reflexivity.
Defined.

(** A table with neither header nor row does not reach the check for
    data: taking the first row for the header fails on [t.Data[1:]]. *)
Example render_empty_table :
  Render initGlobals (Size 80 24) (Create []) None
  = Some (Panicked SliceBoundsOutOfRange).
Proof. reflexivity. Qed.

(** *** The package variable *)

(** After [SetAutoSize(false)] on one table, another table is rendered
    with narrower columns. *)
Example render_after_SetAutoSize :
  option_map (fun r => match r with Ok (text, _) => Ok text
                                  | Panicked p => Panicked p end)
    (Render (fst (SetAutoSize initGlobals twoWords false)) (Size 80 24)
       jonSnow (Some "grid"%string))
  = Some (Ok (str "+----------+------------+" ++ [newline]
              ++ str "|     Name |       City |" ++ [newline]
              ++ str "+==========+============+" ++ [newline]
              ++ str "| Jon Snow | Winterfell |" ++ [newline]
              ++ str "+----------+------------+" ++ [newline])).
Proof. vm_compute; reflexivity. Qed.

(** *** Natural widths *)

(** C4 (the code at the failing input): under the headers ["Name"] and
    ["City"], rows of one cell leave the second column at width 0,
    although its header is 4 wide. *)
Lemma getWidths_column_without_cells :
  getWidths shortRowHeaders shortRows = [4; 0]
  /\ map StringWidth shortRowHeaders = [4; 4].
Proof. split; reflexivity. Qed.

(** *** Autosizing *)

(** C2 (the code at the failing input): natural widths 50, 2, 2, 2, 50
    on a terminal of 117 columns, grid format, [MIN_PADDING = 2]: the
    first column, whose header is 47 wide, passes the floor test with
    the ratio 100/106 and is then scaled with the last ratio 88/94, to
    46. *)
Lemma autoSize_below_header :
  getWidths wideHeaders (Data (snd wide)) = [50; 2; 2; 2; 50]
  /\ map StringWidth wideHeaders = [47; 1; 1; 1; 1]
  /\ autoSize (fst wide) terminal117 (snd wide) wideHeaders
       (getWidths wideHeaders (Data (snd wide)))
     = Ok [46; 2; 2; 2; 46].
Proof. repeat split; vm_compute; reflexivity. Qed.

End Concrete.

(** ** Further properties of the wrapping pass *)

Section WrapContract.
Context {c : Condition}.

Lemma StringWidth_from (s : gostring) (a : Z) :
  fold_left (fun width r => width + RuneWidth r) s a = a + StringWidth s.
Proof.
  unfold StringWidth; revert a; induction s as [|x s IH]; intros a; simpl.
  - lia.
  - rewrite IH, (IH (RuneWidth x)); lia.
Qed.

Lemma StringWidth_cons (x : rune) (s : gostring) :
  StringWidth (x :: s) = RuneWidth x + StringWidth s.
Proof. unfold StringWidth at 1; simpl; apply StringWidth_from. Qed.

Lemma StringWidth_app (a b : gostring) :
  StringWidth (a ++ b) = StringWidth a + StringWidth b.
Proof.
  induction a as [|x a IH]; simpl.
  - reflexivity.
  - rewrite !StringWidth_cons, IH; lia.
Qed.

Lemma StringWidth_nonneg (s : gostring) : nonnegWidths -> 0 <= StringWidth s.
Proof.
  intros Hn; induction s as [|x s IH].
  - reflexivity.
  - rewrite StringWidth_cons; specialize (Hn x); lia.
Qed.

Lemma StringWidth_le_len (s : gostring) :
  widthWithinBytes -> StringWidth s <= len s.
Proof.
  intros Hb; induction s as [|x s IH].
  - reflexivity.
  - rewrite StringWidth_cons; simpl; specialize (Hb x); lia.
Qed.

(** The first occurrence: a string with [Index] other than -1 splits
    around it. *)
Lemma Index_split (s : gostring) (x : rune) :
  strings.Index s x <> -1 ->
  exists p q, s = p ++ x :: q /\ ~ In x p /\ strings.Index s x = len p.
Proof.
  induction s as [|r s IH]; simpl; [congruence|].
  destruct (Z.eqb_spec r x) as [->|Hr].
  - intros _; exists [], s; repeat split; auto.
  - destruct (Z.eqb_spec (strings.Index s x) (-1)) as [E|E]; [congruence|].
    intros _; destruct (IH E) as (p & q & -> & Hp & Hl).
    exists (r :: p), q; simpl; repeat split; [|lia].
    intros [?|?]; [congruence | tauto].
Qed.

Lemma truncateLoop_width (s : gostring) (w : Z) :
  nonnegWidths ->
  forall acc : Z,
    truncateLoop s w acc <> [] ->
    acc + StringWidth (truncateLoop s w acc) <= w.
Proof.
  intros Hn; induction s as [|x s IH]; intros acc; simpl; [congruence|].
  destruct (Z.gtb_spec (acc + RuneWidth x) w); [congruence|].
  intros _; rewrite StringWidth_cons.
  destruct (truncateLoop s w (acc + RuneWidth x)) eqn:E.
  - change (StringWidth []) with 0; lia.
  - rewrite <- E in *; specialize (IH (acc + RuneWidth x)).
    rewrite E in IH at 1; specialize (IH ltac:(discriminate)); lia.
Qed.

(** The head that [wrapCell] leaves in the cell is within the capacity. *)
Lemma wrapCell_fits (w : Z) (e h r : gostring) (split : bool) :
  nonnegWidths -> widthWithinBytes ->
  wrapCell w e = Ok (h, r, split) -> StringWidth h <= w.
Proof.
  intros Hn Hb; unfold wrapCell.
  destruct (Z.eqb_spec (strings.Index e newline) (-1)) as [E|E]; simpl.
  - destruct (Z.gtb_spec (StringWidth e) w) as [Hwide|Hfit].
    + destruct (Z.ltb_spec (len (Truncate e w []) - 1) 0) as [|Hlen];
        [discriminate|].
      fold (widthHead (Truncate e w [])); intros [= <- _ _].
      destruct (widthHead_spec (Truncate e w [])) as (tail & Htr & _).
      assert (Hw : StringWidth (Truncate e w []) <= w).
      { revert Hlen; unfold Truncate.
        destruct (Z.leb_spec (StringWidth e) w); [lia|].
        rewrite app_nil_r; change (StringWidth []) with 0.
        intros Hlen.
        assert (Hne : truncateLoop e (w - 0) 0 <> [])
          by (intros E0; rewrite E0 in Hlen; simpl in Hlen; lia).
        pose proof (truncateLoop_width e (w - 0) Hn 0 Hne); lia. }
      rewrite Htr, StringWidth_app in Hw.
      pose proof (StringWidth_nonneg tail Hn); lia.
    + intros [= <- _ _]; lia.
  - destruct (Z.ltb_spec (strings.Index e newline) w) as [Hlt|Hge]; simpl.
    + intros [= <- _ _].
      destruct (Index_split _ _ E) as (p & q & He & _ & Hl).
      rewrite Hl in *; rewrite He at 1; rewrite sliceTo_app.
      pose proof (StringWidth_le_len p Hb); lia.
    + destruct (Z.gtb_spec (StringWidth e) w) as [Hwide|Hfit].
      * destruct (Z.ltb_spec (len (Truncate e w []) - 1) 0) as [|Hlen];
          [discriminate|].
        fold (widthHead (Truncate e w [])); intros [= <- _ _].
        destruct (widthHead_spec (Truncate e w [])) as (tail & Htr & _).
        assert (Hw : StringWidth (Truncate e w []) <= w).
        { revert Hlen; unfold Truncate.
          destruct (Z.leb_spec (StringWidth e) w); [lia|].
          rewrite app_nil_r; change (StringWidth []) with 0.
          intros Hlen.
          assert (Hne : truncateLoop e (w - 0) 0 <> [])
            by (intros E0; rewrite E0 in Hlen; simpl in Hlen; lia).
          pose proof (truncateLoop_width e (w - 0) Hn 0 Hne); lia. }
        rewrite Htr, StringWidth_app in Hw.
        pose proof (StringWidth_nonneg tail Hn); lia.
      * intros [= <- _ _]; lia.
Qed.

Lemma strip_app (a b : gostring) : strip (a ++ b) = strip a ++ strip b.
Proof. apply filter_app. Qed.

(** Head and remainder together are the cell, but for the newline of a
    newline split. *)
Lemma wrapCell_content (w : Z) (e h r : gostring) (split : bool) :
  wrapCell w e = Ok (h, r, split) -> strip (h ++ r) = strip e.
Proof.
  unfold wrapCell.
  destruct (negb (strings.Index e newline =? -1)
            && (strings.Index e newline <? w)) eqn:Enl.
  - apply andb_true_iff in Enl as [E _].
    apply negb_true_iff, Z.eqb_neq in E.
    destruct (Index_split _ _ E) as (p & q & He & _ & Hl).
    rewrite Hl; intros [= <- <- _].
    assert (Hafter : sliceFrom (p ++ newline :: q) (len p + 1) = q).
    { change (p ++ newline :: q) with (p ++ [newline] ++ q).
      rewrite app_assoc.
      replace (len p + 1) with (len (p ++ [newline]))
        by (rewrite len_app; reflexivity).
      apply sliceFrom_app. }
    subst e; rewrite sliceTo_app, Hafter, !strip_app; reflexivity.
  - destruct (StringWidth e >? w).
    + destruct (len (Truncate e w []) - 1 <? 0); [discriminate|].
      fold (widthHead (Truncate e w [])); intros [= <- <- _].
      destruct (widthHead_spec (Truncate e w [])) as (tail & Htr & _).
      destruct (Truncate_prefix e w) as [rest Hrest].
      remember (Truncate e w []) as tr eqn:Etr.
      remember (widthHead tr) as hd eqn:Ehd.
      rewrite Hrest, Htr, <- app_assoc, sliceFrom_app; reflexivity.
    + intros [= <- <- _]; rewrite app_nil_r; reflexivity.
Qed.

Lemma wrapElements_lengths (t : Tabulate) (cols : list Z)
    (es : list gostring) :
  forall (i : Z) (hs rs : list gostring) (split : bool),
    wrapElements t cols i es = Ok (hs, rs, split) ->
    List.length hs = List.length es /\ List.length rs = List.length es.
Proof.
  induction es as [|e es IH]; intros i hs rs split; simpl.
  - intros [= <- <- _]; auto.
  - destruct (if AutoSize t then elemAt cols i else Ok (MaxSize t))
      as [w|p]; simpl; [|discriminate].
    destruct (wrapCell w e) as [[[h r] sp]|p]; simpl; [|discriminate].
    destruct (wrapElements t cols (i + 1) es) as [[[hs' rs'] more]|p]
      eqn:Erest; simpl; [|discriminate].
    intros [= <- <- _]; destruct (IH _ _ _ _ Erest); simpl; lia.
Qed.

Lemma wrapElements_fits (t : Tabulate) (cols : list Z) (es : list gostring) :
  nonnegWidths -> widthWithinBytes ->
  forall (i : nat) (hs rs : list gostring) (split : bool),
    wrapElements t cols (Z.of_nat i) es = Ok (hs, rs, split) ->
    forall (j : nat) (h : gostring),
      nth_error hs j = Some h ->
      exists w, capacityAt t cols (Z.of_nat (i + j)) = Ok w
                /\ StringWidth h <= w.
Proof.
  intros Hn Hb; unfold capacityAt.
  induction es as [|e es IH]; intros i hs rs split; simpl.
  - intros [= <- _ _] [|j] h; discriminate.
  - destruct (if AutoSize t then elemAt cols (Z.of_nat i)
              else Ok (MaxSize t)) as [w|p] eqn:Ew; simpl; [|discriminate].
    destruct (wrapCell w e) as [[[h0 r0] sp]|p] eqn:Ecell; simpl;
      [|discriminate].
    replace (Z.of_nat i + 1) with (Z.of_nat (S i)) by lia.
    destruct (wrapElements t cols (Z.of_nat (S i)) es)
      as [[[hs' rs'] more]|p] eqn:Erest; simpl; [|discriminate].
    intros [= <- _ _] [|j] h; simpl.
    + intros [= <-]; rewrite Nat.add_0_r, Ew.
      exists w; split; [reflexivity|].
      eapply wrapCell_fits; eassumption.
    + intros Hj; replace (i + S j)%nat with (S i + j)%nat by lia.
      eapply IH; eassumption.
Qed.

Lemma wrapElements_content (t : Tabulate) (cols : list Z)
    (es : list gostring) :
  forall (i : Z) (hs rs : list gostring) (split : bool),
    wrapElements t cols i es = Ok (hs, rs, split) ->
    map strip (zipApp hs rs) = map strip es.
Proof.
  induction es as [|e es IH]; intros i hs rs split; simpl.
  - intros [= <- <- _]; reflexivity.
  - destruct (if AutoSize t then elemAt cols i else Ok (MaxSize t))
      as [w|p]; simpl; [|discriminate].
    destruct (wrapCell w e) as [[[h r] sp]|p] eqn:Ecell; simpl;
      [|discriminate].
    destruct (wrapElements t cols (i + 1) es) as [[[hs' rs'] more]|p]
      eqn:Erest; simpl; [|discriminate].
    intros [= <- <- _]; unfold zipApp; simpl.
    rewrite (wrapCell_content _ _ _ _ _ Ecell).
    f_equal; exact (IH _ _ _ _ Erest).
Qed.

(** The row that a pass leaves and the row of remainders that it
    queues. *)
Lemma wrapRow_cells (t : Tabulate) (cols : list Z)
    (next next' : TabulateRow) (new_elements : list gostring) :
  wrapRow t cols next = Ok (next', new_elements) ->
  List.length (Elements next') = List.length (Elements next)
  /\ List.length new_elements = List.length (Elements next)
  /\ map strip (zipApp (Elements next') new_elements)
     = map strip (Elements next)
  /\ (nonnegWidths -> widthWithinBytes -> rowFits t cols next').
Proof.
  unfold wrapRow.
  destruct (wrapElements t cols 0 (Elements next))
    as [[[hs rs] split]|p] eqn:E; simpl; [|discriminate].
  intros [= <- <-]; simpl.
  destruct (wrapElements_lengths _ _ _ _ _ _ _ E) as [H1 H2].
  repeat split; auto.
  - eapply wrapElements_content; exact E.
  - intros Hn Hb j cell Hj; simpl in Hj.
    change 0 with (Z.of_nat 0) in E.
    exact (wrapElements_fits t cols _ Hn Hb 0 _ _ _ E j cell Hj).
Qed.

Lemma zipApp_strip (hs a b : list gostring) :
  map strip a = map strip b ->
  map strip (zipApp hs a) = map strip (zipApp hs b).
Proof.
  revert a b; induction hs as [|h hs IH]; intros [|x a] [|y b]; simpl;
    try discriminate; try reflexivity.
  intros [= Hxy Hab]; unfold zipApp; simpl.
  rewrite !strip_app, Hxy; f_equal; exact (IH _ _ Hab).
Qed.

(** What a chain keeps of its row: the number of cells in every row,
    the capacities, and the text of every column. *)
Lemma chain_cells (t : Tabulate) (cols : list Z) (next : TabulateRow)
    (l : list TabulateRow) :
  chain t cols next l ->
  Forall (fun row => List.length (Elements row)
                     = List.length (Elements next)) l
  /\ map strip (stack (map Elements l)) = map strip (Elements next)
  /\ (nonnegWidths -> widthWithinBytes -> Forall (rowFits t cols) l).
Proof.
  induction 1 as [next next' ne Hrow Hc
                 |next next' ne rest Hrow Hc Hrest (IHlen & IHtext & IHfit)].
  - destruct (wrapRow_cells _ _ _ _ _ Hrow) as (H1 & _ & _ & Hfit).
    rewrite (wrapRow_keeps _ _ _ _ _ Hrow Hc) in *.
    repeat split; auto.
  - destruct (wrapRow_cells _ _ _ _ _ Hrow) as (H1 & H2 & Htext & Hfit).
    simpl in IHlen, IHtext.
    repeat split.
    + constructor; [exact H1|].
      eapply Forall_impl; [|exact IHlen]; simpl; intros; congruence.
    + assert (Hne : map Elements rest <> [])
        by (destruct Hrest; discriminate).
      simpl; destruct (map Elements rest) as [|x xs] eqn:Ex; [congruence|].
      rewrite <- Htext; apply zipApp_strip; exact IHtext.
    + intros Hn Hb; constructor; auto.
Qed.

Lemma Forall_concat {A : Type} (P : A -> Prop) (chunks : list (list A)) :
  Forall (Forall P) chunks -> Forall P (List.concat chunks).
Proof.
  induction 1 as [|l chunks Hl _ IH]; simpl; [constructor|].
  apply Forall_app; auto.
Qed.

Lemma Forall2_right {A B : Type} (R : A -> B -> Prop) (P : B -> Prop)
    (l : list A) (l' : list B) :
  (forall a b, R a b -> P b) -> Forall2 R l l' -> Forall P l'.
Proof. intros H; induction 1; constructor; eauto. Qed.

(** X1: the rows returned are within the capacities: no cell of them is
    wider than the capacity that [wrapCellData] read for its column. *)
Theorem wrapped_cells_fit (t : Tabulate) (cols : list Z)
    (out : list TabulateRow) :
  nonnegWidths -> widthWithinBytes ->
  wrapCellData t cols = Some (Ok out) ->
  Forall (rowFits t cols) out.
Proof.
  intros Hn Hb Hout.
  destruct (wrapCellData_chains _ _ _ Hout) as (chunks & -> & Hch).
  apply Forall_concat.
  eapply Forall2_right; [|exact Hch].
  intros row l Hl; apply (chain_cells _ _ _ _ Hl); assumption.
Qed.

Lemma wrapCellData_keeps_text (t : Tabulate) (cols : list Z)
    (out : list TabulateRow) :
  wrapCellData t cols = Some (Ok out) ->
  exists chunks,
    out = List.concat chunks
    /\ Forall2 (fun row l => map strip (stack (map Elements l))
                             = map strip (Elements row))
         (Data t) chunks.
Proof.
  intros Hout.
  destruct (wrapCellData_chains _ _ _ Hout) as (chunks & -> & Hch).
  exists chunks; split; [reflexivity|].
  eapply Forall2_impl; [|exact Hch].
  intros row l Hl; apply (chain_cells _ _ _ _ Hl).
Qed.

(** X2: for a table whose rows are distinct objects that share no cell,
    wrapping loses no text but the newlines at which it splits: the
    rows returned for an input row, as they are in memory after the
    pass and joined column by column, are the cells that the row had
    before the pass, up to newlines. *)
Theorem wrapping_keeps_text (t : Tabulate) (cols : list Z)
    (data ptrs : list nat) (m m' : Store) :
  Data t = map (readRow m) data ->
  separate m data = true ->
  wrapCellDataMem t cols data m = Some (Ok (ptrs, m')) ->
  exists chunks,
    map (readRow m') ptrs = List.concat chunks
    /\ Forall2 (fun row l => map strip (stack (map Elements l))
                             = map strip (Elements row))
         (Data t) chunks.
Proof.
  intros Hdata Hsep Hrun.
  apply (wrapCellData_keeps_text t cols).
  eapply wrapCellDataMem_values; eassumption.
Qed.

(** X3: wrapping returns at least one row per input row, and every row
    returned for an input row has as many cells as that row. *)
Theorem wrapping_keeps_columns (t : Tabulate) (cols : list Z)
    (out : list TabulateRow) :
  wrapCellData t cols = Some (Ok out) ->
  (List.length (Data t) <= List.length out)%nat
  /\ exists chunks,
       out = List.concat chunks
       /\ Forall2 (fun row l =>
                     l <> []
                     /\ Forall (fun r => List.length (Elements r)
                                         = List.length (Elements row)) l)
            (Data t) chunks.
Proof.
  intros Hout.
  destruct (wrapCellData_chains _ _ _ Hout) as (chunks & -> & Hch).
  split; [apply (chains_length _ _ _ _ Hch)|].
  exists chunks; split; [reflexivity|].
  eapply Forall2_impl; [|exact Hch].
  intros row l Hl; split; [destruct Hl; discriminate|].
  apply (chain_cells _ _ _ _ Hl).
Qed.

End WrapContract.

(** ** Further properties of alignment, rows and lines *)

Section AlignFacts.
Context {c : Condition}.

Lemma int64_small (z : Z) : MinInt64 <= z < 2 ^ 63 -> int64 z = z.
Proof.
  unfold int64, MinInt64; intros H.
  rewrite Z.mod_small by lia; lia.
Qed.

Lemma StringWidth_repeat (x : rune) (n : nat) :
  StringWidth (repeat x n) = Z.of_nat n * RuneWidth x.
Proof.
  induction n as [|n IH]; [reflexivity|].
  change (repeat x (S n)) with (x :: repeat x n).
  rewrite StringWidth_cons, IH; lia.
Qed.

Lemma Write_blanks (b : gostring) (n : Z) :
  Write b [space] n = b ++ repeat space (Z.to_nat n).
Proof.
  unfold Write; f_equal.
  induction (Z.to_nat n) as [|k IH]; simpl; congruence.
Qed.

Lemma Write_once (b s : gostring) : Write b s 1 = b ++ s.
Proof. unfold Write; simpl; rewrite app_nil_r; reflexivity. Qed.

(** X7: the three alignments add blanks around the text and nothing else:
    they never cut it, whatever the width. *)
Theorem alignment_only_adds_blanks (t : Tabulate) (width : Z) (s : gostring) :
  (exists a, padLeft width s = repeat space a ++ s)
  /\ (exists b, padRight width s = s ++ repeat space b)
  /\ (exists a b, padCenter width s = repeat space a ++ s ++ repeat space b)
  /\ exists a b, getAlignFunc t width s = repeat space a ++ s ++ repeat space b.
Proof.
  assert (HL : exists a, padLeft width s = repeat space a ++ s).
  { unfold padLeft; rewrite Write_once, Write_blanks; eexists; reflexivity. }
  assert (HR : exists b, padRight width s = s ++ repeat space b).
  { unfold padRight; rewrite Write_once, Write_blanks; eexists; reflexivity. }
  assert (HC : exists a b,
             padCenter width s = repeat space a ++ s ++ repeat space b).
  { unfold padCenter; rewrite Write_once, !Write_blanks; simpl.
    eexists _, _; rewrite <- app_assoc; reflexivity. }
  repeat split; auto.
  unfold getAlignFunc.
  destruct ((len (Align t) <? 1) || gostring_eqb (Align t) (str "right")).
  - destruct HL as [a ->]; exists a, O; simpl; rewrite app_nil_r; reflexivity.
  - destruct (gostring_eqb (Align t) (str "left")); [|exact HC].
    destruct HR as [b ->]; exists O, b; reflexivity.
Qed.

Lemma padLeft_fill (width : Z) (s : gostring) :
  narrowBlank ->
  MinInt64 <= width - StringWidth s < 2 ^ 63 ->
  StringWidth (padLeft width s) = Z.max width (StringWidth s).
Proof.
  intros Hb Hr; unfold narrowBlank in Hb; unfold padLeft.
  rewrite Write_once, Write_blanks, (int64_small _ Hr); simpl.
  rewrite StringWidth_app, StringWidth_repeat, Hb; lia.
Qed.

Lemma padRight_fill (width : Z) (s : gostring) :
  narrowBlank ->
  MinInt64 <= width - StringWidth s < 2 ^ 63 ->
  StringWidth (padRight width s) = Z.max width (StringWidth s).
Proof.
  intros Hb Hr; unfold narrowBlank in Hb; unfold padRight.
  rewrite Write_once, Write_blanks, (int64_small _ Hr); simpl.
  rewrite StringWidth_app, StringWidth_repeat, Hb; lia.
Qed.

(** X8: right and left alignment fill the text up to the width exactly; a
    text wider than the width is returned as it is. *)
Theorem padLeft_padRight_width (width : Z) (s : gostring) :
  narrowBlank ->
  MinInt64 <= width - StringWidth s < 2 ^ 63 ->
  StringWidth (padLeft width s) = Z.max width (StringWidth s)
  /\ StringWidth (padRight width s) = Z.max width (StringWidth s)
  /\ (width <= StringWidth s -> padLeft width s = s /\ padRight width s = s).
Proof.
  intros Hb Hr.
  split; [apply padLeft_fill; assumption|].
  split; [apply padRight_fill; assumption|].
  intros Hw; unfold padLeft, padRight.
  rewrite !Write_once, !Write_blanks, (int64_small _ Hr); simpl.
  replace (Z.to_nat (width - StringWidth s)) with O by lia; simpl.
  rewrite app_nil_r; auto.
Qed.

(** *** Rows *)

Lemma rowCells_length (t : Tabulate) (elements : list gostring)
    (padded_widths : list Z) :
  forall k : nat,
    List.length (rowCells t elements padded_widths k)
    = List.length padded_widths.
Proof.
  induction padded_widths as [|w ws IH]; intros k; simpl; auto.
Qed.

Lemma rowCells_ext (t : Tabulate) (elements elements' : list gostring)
    (padded_widths : list Z) :
  forall k : nat,
    (forall i, (k <= i < k + List.length padded_widths)%nat ->
               nth_error elements i = nth_error elements' i) ->
    rowCells t elements padded_widths k = rowCells t elements' padded_widths k.
Proof.
  induction padded_widths as [|w ws IH]; intros k H; simpl; [reflexivity|].
  f_equal.
  - unfold rowCell; rewrite (H k) by (simpl; lia); reflexivity.
  - apply IH; intros i Hi; apply H; simpl; lia.
Qed.

(** X9: A row is rendered in as many columns as there are widths: cells
    beyond the last column are not rendered, whatever they hold. *)
Theorem buildRow_drops_extra_cells (t : Tabulate)
    (elements extra : list gostring) (padded_widths paddings : list Z)
    (d : Row) :
  (List.length padded_widths <= List.length elements)%nat ->
  List.length (rowCells t (elements ++ extra) padded_widths 0)
  = List.length padded_widths
  /\ buildRow t (elements ++ extra) padded_widths paddings d
     = buildRow t elements padded_widths paddings d.
Proof.
  intros Hlen; split; [apply rowCells_length|].
  unfold buildRow; f_equal; f_equal; f_equal.
  apply rowCells_ext; intros i Hi.
  apply nth_error_app1; lia.
Qed.

Lemma joinCells_width (cells : list gostring) (sep : gostring) :
  cells <> [] ->
  StringWidth (joinCells cells sep)
  = sumZ (map StringWidth cells)
    + (Z.of_nat (List.length cells) - 1) * StringWidth sep.
Proof.
  induction cells as [|x cells IH]; [congruence|]; intros _.
  destruct cells as [|y cells].
  - simpl; lia.
  - change (joinCells (x :: y :: cells) sep)
      with (x ++ sep ++ joinCells (y :: cells) sep).
    rewrite !StringWidth_app, IH by discriminate.
    simpl List.length; simpl map; simpl sumZ; lia.
Qed.

Lemma rowCells_widths (t : Tabulate) (elements : list gostring)
    (padded_widths : list Z) :
  narrowBlank ->
  Align t = [] \/ Align t = str "right" \/ Align t = str "left" ->
  forall k : nat,
    (forall i w, nth_error padded_widths i = Some w ->
                 0 <= StringWidth (cellText t elements (k + i)) <= w
                 /\ w < 2 ^ 63) ->
    map StringWidth (rowCells t elements padded_widths k) = padded_widths.
Proof.
  intros Hb Ha.
  assert (Hpad : forall w s, 0 <= StringWidth s <= w -> w < 2 ^ 63 ->
                             StringWidth (getAlignFunc t w s) = w).
  { intros w s Hs Hw.
    assert (Hr : MinInt64 <= w - StringWidth s < 2 ^ 63)
      by (unfold MinInt64; lia).
    pose proof (padLeft_fill w s Hb Hr) as HL.
    pose proof (padRight_fill w s Hb Hr) as HR.
    unfold getAlignFunc.
    destruct Ha as [->|[->| ->]]; simpl; lia. }
  induction padded_widths as [|w ws IH]; intros k H; simpl; [reflexivity|].
  f_equal.
  - destruct (H O w eq_refl) as [Hs Hw]; rewrite Nat.add_0_r in Hs.
    unfold rowCell; fold (cellText t elements k).
    unfold cellText in *.
    destruct (nth_error elements k) as [e|].
    + destruct (gostring_eqb e (str " nil ")); apply Hpad; assumption.
    + apply Hpad; assumption.
  - apply IH; intros i w' Hi.
    replace (S k + i)%nat with (k + S i)%nat by lia.
    apply H; exact Hi.
Qed.

(** X10: with right or left alignment, a row whose texts fit their columns
    takes exactly the padded widths: its display width is that of the
    delimiters plus the padded widths plus one separator between
    columns. *)
Theorem buildRow_width (t : Tabulate) (elements : list gostring)
    (padded_widths paddings : list Z) (d : Row) :
  narrowBlank ->
  Align t = [] \/ Align t = str "right" \/ Align t = str "left" ->
  padded_widths <> [] ->
  (forall i w, nth_error padded_widths i = Some w ->
               0 <= StringWidth (cellText t elements i) <= w /\ w < 2 ^ 63) ->
  StringWidth (buildRow t elements padded_widths paddings d)
  = StringWidth (row_begin d) + sumZ padded_widths
    + (Z.of_nat (List.length padded_widths) - 1) * StringWidth (row_sep d)
    + StringWidth (row_end d).
Proof.
  intros Hb Ha Hne Hfit; unfold buildRow.
  rewrite !StringWidth_app, joinCells_width.
  - rewrite (rowCells_widths t elements padded_widths Hb Ha 0 Hfit).
    rewrite rowCells_length; lia.
  - intros E; apply (f_equal (@List.length gostring)) in E.
    rewrite rowCells_length in E; destruct padded_widths; [congruence|].
    discriminate E.
Qed.

End AlignFacts.

(** ** Further properties of lines and of [Render] *)

Section RenderFacts.
Context {c : Condition}.

Lemma Write_width (b s : gostring) (n : Z) :
  StringWidth (Write b s n)
  = StringWidth b + Z.of_nat (Z.to_nat n) * StringWidth s.
Proof.
  unfold Write; rewrite StringWidth_app; f_equal.
  induction (Z.to_nat n) as [|k IH].
  - reflexivity.
  - change (List.concat (repeat s (S k)))
      with (s ++ List.concat (repeat s k)).
    rewrite StringWidth_app, IH; lia.
Qed.

Lemma lineCells_bounds (g : Globals) (l : Line) (padded_widths : list Z) :
  forall pre rest : list Z,
    lineCells g padded_widths (llen pre) (pre ++ rest) l
    = if (List.length padded_widths <=? List.length rest)%nat
      then Ok (map (fun p => Write [] (line_hline l)
                               (int64 (p + MIN_PADDING g)))
                 (firstn (List.length padded_widths) rest))
      else Panicked IndexOutOfRange.
Proof.
  induction padded_widths as [|w ws IH]; intros pre rest; simpl;
    [reflexivity|].
  unfold llen at 1; rewrite elemAt_nth.
  destruct rest as [|p rest]; simpl.
  - rewrite app_nil_r.
    replace (nth_error pre (List.length pre)) with (@None Z)
      by (symmetry; apply nth_error_None; lia).
    reflexivity.
  - rewrite nth_error_app2, Nat.sub_diag by lia; simpl.
    replace (llen pre + 1) with (llen (pre ++ [p]))
      by (unfold llen; rewrite length_app; simpl; lia).
    specialize (IH (pre ++ [p]) rest).
    rewrite <- app_assoc in IH; simpl in IH; rewrite IH.
    destruct (List.length ws <=? List.length rest)%nat; reflexivity.
Qed.

(** X11: [buildLine] reads one padding per padded width and nothing else of
    the padded widths: it panics exactly when the paddings are fewer, and
    otherwise draws, per column, the fill glyph [padding + MIN_PADDING]
    times. *)
Theorem buildLine_bounds (g : Globals) (padded_widths padding : list Z)
    (l : Line) :
  buildLine g padded_widths padding l
  = if (List.length padded_widths <=? List.length padding)%nat
    then Ok (line_begin l
             ++ joinCells
                  (map (fun p => Write [] (line_hline l)
                                   (int64 (p + MIN_PADDING g)))
                     (firstn (List.length padded_widths) padding))
                  (line_sep l)
             ++ line_end l)
    else Panicked IndexOutOfRange.
Proof.
  unfold buildLine.
  pose proof (lineCells_bounds g l padded_widths [] padding) as H.
  unfold llen in H; simpl in H; rewrite H.
  destruct (List.length padded_widths <=? List.length padding)%nat;
    reflexivity.
Qed.

Lemma sumZ_map_ext {A : Type} (f g : A -> Z) (l : list A) :
  (forall i a, nth_error l i = Some a -> f a = g a) ->
  sumZ (map f l) = sumZ (map g l).
Proof.
  induction l as [|a l IH]; intros H; simpl; [reflexivity|].
  rewrite (H O a eq_refl), IH; [reflexivity|].
  intros i b Hi; exact (H (S i) b Hi).
Qed.

(** With a padding unit of 1, a fill glyph of one column and delimiters
    as wide as those of the border, a row whose texts fit is exactly as
    wide as the border line over the same columns. *)
Lemma row_border_core (g : Globals) (t : Tabulate)
    (elements : list gostring) (cols : list Z) (l : Line) (d : Row)
    (line : gostring) :
  narrowBlank ->
  Align t = [] \/ Align t = str "right" \/ Align t = str "left" ->
  cols <> [] ->
  Padding (Format t) = 1 ->
  StringWidth (line_hline l) = 1 ->
  StringWidth (line_begin l) = StringWidth (row_begin d) ->
  StringWidth (line_sep l) = StringWidth (row_sep d) ->
  StringWidth (line_end l) = StringWidth (row_end d) ->
  (forall i col, nth_error cols i = Some col ->
                 0 <= StringWidth (cellText t elements i)
                   <= col + MIN_PADDING g
                 /\ col + MIN_PADDING g < 2 ^ 63) ->
  buildLine g (paddedWidths g t cols) cols l = Ok line ->
  StringWidth (buildRow t elements (paddedWidths g t cols) cols d)
  = StringWidth line.
Proof.
  intros Hb Ha Hne Hp Hh Hbeg Hsep Hend Hfit.
  rewrite buildLine_cols; intros [= <-].
  assert (Hpw : paddedWidths g t cols
                = map (fun col => col + MIN_PADDING g) cols).
  { unfold paddedWidths; rewrite Hp.
    apply nth_error_ext; intros i; rewrite !nth_error_map.
    destruct (nth_error cols i) as [col|] eqn:Ei; simpl; [|reflexivity].
    destruct (Hfit i col Ei) as [H1 H2].
    rewrite int64_small by (unfold MinInt64; lia).
    f_equal; lia. }
  assert (Hcells : map StringWidth
                     (rowCells t elements
                        (map (fun col => col + MIN_PADDING g) cols) 0)
                   = map (fun col => col + MIN_PADDING g) cols).
  { apply (rowCells_widths t elements _ Hb Ha 0).
    intros i w; rewrite nth_error_map.
    destruct (nth_error cols i) as [col|] eqn:Ei; simpl; [|discriminate].
    intros [= <-]; exact (Hfit i col Ei). }
  rewrite Hpw; unfold buildRow.
  rewrite !StringWidth_app, !joinCells_width.
  - rewrite Hcells, rowCells_length, !length_map, map_map, Hbeg, Hsep, Hend.
    rewrite (sumZ_map_ext
               (fun col => StringWidth (Write [] (line_hline l)
                                          (int64 (col + MIN_PADDING g))))
               (fun col => col + MIN_PADDING g)).
    + lia.
    + intros i col Ei; destruct (Hfit i col Ei) as [H1 H2].
      rewrite Write_width, Hh, int64_small by (unfold MinInt64; lia).
      change (StringWidth []) with 0; lia.
  - destruct cols; [congruence | discriminate].
  - destruct cols; [congruence | discriminate].
Qed.

(** *** The lines of a table *)

Lemma dataLines_count (g : Globals) (t : Tabulate) (cols : list Z)
    (data : list TabulateRow) :
  exists lines,
    dataLines g t (paddedWidths g t cols) cols data = Ok lines
    /\ List.length lines
       = (List.length data
          + List.length (filter (fun r => negb (Continuous r))
                           (removelast data)))%nat.
Proof.
  induction data as [|element rest (lines & IH & Hlen)].
  - exists []; split; reflexivity.
  - cbn [dataLines]; rewrite IH.
    destruct rest as [|r rest].
    + eexists; split; [reflexivity|].
      simpl in *; lia.
    + rewrite buildLine_cols.
      change (removelast (element :: r :: rest))
        with (element :: removelast (r :: rest)).
      cbn [filter List.length] in *.
      destruct (Continuous element); simpl negb; cbv iota;
        (eexists; split; [reflexivity|]);
        cbn [List.length app]; lia.
Qed.

Lemma inSlice_false (a : gostring) (l : list gostring) :
  ~ In a l -> inSlice a l = false.
Proof.
  unfold inSlice; induction l as [|x l IH]; simpl; [reflexivity|].
  intros H.
  destruct (gostring_eqb a x) eqn:E.
  - apply gostring_eqb_eq in E; subst; tauto.
  - apply IH; tauto.
Qed.

Lemma renderLines_ok (g : Globals) (t : Tabulate) (cols : list Z) :
  exists text, renderLines g t cols = Ok text.
Proof.
  unfold renderLines.
  destruct (dataLines_count g t cols (Data t)) as (rows & -> & _).
  rewrite !buildLine_cols.
  destruct (inSlice (str "top") (HideLines t));
    destruct (inSlice (str "belowheader") (HideLines t));
    destruct (inSlice (str "bottomLine") (HideLines t));
    eexists; reflexivity.
Qed.


Lemma lines_last (top below rows : list gostring) (header bottom : gostring) :
  List.concat (map (fun line => line ++ [newline])
                 (top ++ [header] ++ below ++ rows ++ [bottom]))
  = List.concat (map (fun line => line ++ [newline])
                   (top ++ [header] ++ below ++ rows))
    ++ bottom ++ [newline].
Proof.
  replace (top ++ [header] ++ below ++ rows ++ [bottom])
    with ((top ++ [header] ++ below ++ rows) ++ [bottom])
    by (rewrite <- !app_assoc; reflexivity).
  rewrite map_app, concat_app; simpl; rewrite app_nil_r; reflexivity.
Qed.

(** X14: the bottom border is hidden by the name [bottomLine] only: with any
    other names to hide, ["bottom"] among them, the text ends with the
    bottom border. *)
Theorem bottom_border_kept (g : Globals) (t : Tabulate) (cols : list Z)
    (hide : list gostring) :
  ~ In (str "bottomLine") hide ->
  exists above line,
    buildLine g (paddedWidths g t cols) cols (LineBottom (Format t)) = Ok line
    /\ renderLines g (SetHideLines t hide) cols
       = Ok (above ++ line ++ [newline]).
Proof.
  intros Hhide; unfold renderLines.
  change (HideLines (SetHideLines t hide)) with hide.
  change (Format (SetHideLines t hide)) with (Format t).
  change (paddedWidths g (SetHideLines t hide) cols)
    with (paddedWidths g t cols).
  destruct (dataLines_count g (SetHideLines t hide) cols
              (Data (SetHideLines t hide))) as (rows & Hrows & _).
  change (paddedWidths g (SetHideLines t hide) cols)
    with (paddedWidths g t cols) in Hrows.
  assert (Hbottom : exists bottom,
             buildLine g (paddedWidths g t cols) cols (LineBottom (Format t))
             = Ok bottom)
    by (rewrite buildLine_cols; eexists; reflexivity).
  destruct Hbottom as [bottom Hbottom].
  rewrite Hrows, (inSlice_false _ _ Hhide), Hbottom, !buildLine_cols.
  exists (List.concat
            (map (fun line => line ++ [newline])
               ((if negb (inSlice (str "top") hide)
                 then [line_begin (LineTop (Format t))
                       ++ joinCells
                            (map (fun col =>
                                    Write [] (line_hline (LineTop (Format t)))
                                      (int64 (col + MIN_PADDING g))) cols)
                            (line_sep (LineTop (Format t)))
                       ++ line_end (LineTop (Format t))]
                 else [])
                ++ [buildRow (SetHideLines t hide)
                      (padRow (Headers (SetHideLines t hide))
                         (Padding (Format t)))
                      (paddedWidths g t cols) cols (HeaderRow (Format t))]
                ++ (if negb (inSlice (str "belowheader") hide)
                    then [line_begin (LineBelowHeader (Format t))
                          ++ joinCells
                               (map (fun col =>
                                       Write []
                                         (line_hline
                                            (LineBelowHeader (Format t)))
                                         (int64 (col + MIN_PADDING g))) cols)
                               (line_sep (LineBelowHeader (Format t)))
                          ++ line_end (LineBelowHeader (Format t))]
                    else [])
                ++ rows))), bottom.
  split; [reflexivity|].
  destruct (inSlice (str "top") hide);
    destruct (inSlice (str "belowheader") hide); cbn [bind negb];
    rewrite lines_last; reflexivity.
Qed.

(** *** The header and the rows that [Render] works on *)

Lemma renderPrepare_shape (g : Globals) (t t' : Tabulate)
    (format : option string) :
  renderPrepare g t format = Ok t' ->
  exists first rest,
    dataSource t = first :: rest
    /\ (List.length (Elements first) <= List.length (Headers t'))%nat
    /\ t' = mkTabulate (first :: rest)
              (repeat [] (List.length (Elements first)
                          - List.length (headerSource t))
               ++ headerSource t)
              (FloatFormat t) (formatSource g t format) (Align t)
              (EmptyVar t) (HideLines t) (MaxSize t) (WrapStrings t)
              (AutoSize t).
Proof.
  unfold renderPrepare, dataSource, headerSource, formatSource.
  destruct t as [data headers ff fmt al ev hl ms ws az]; simpl.
  assert (Hpad : forall (d : list TabulateRow) (h : list gostring)
                        (f : TableFormat) (r : Tabulate),
             (if llen d <? 1
              then Panicked (PanicString "No Data specified")
              else first <- elemAt d 0 ;;
                   if llen h <? llen (Elements first)
                   then Ok (mkTabulate d
                              (repeat [] (Z.to_nat (llen (Elements first)
                                                    - llen h)) ++ h)
                              ff f al ev hl ms ws az)
                   else Ok (mkTabulate d h ff f al ev hl ms ws az)) = Ok r ->
             exists first rest,
               d = first :: rest
               /\ (List.length (Elements first) <= List.length (Headers r))%nat
               /\ r = mkTabulate (first :: rest)
                        (repeat [] (List.length (Elements first)
                                    - List.length h) ++ h)
                        ff f al ev hl ms ws az).
  { intros d h f r.
    destruct d as [|first rest]; [discriminate|].
    replace (llen (first :: rest) <? 1) with false
      by (symmetry; apply Z.ltb_ge; unfold llen; simpl List.length; lia).
    simpl; unfold llen.
    destruct (Z.ltb_spec (Z.of_nat (List.length h))
                (Z.of_nat (List.length (Elements first)))).
    - intros [= <-]; exists first, rest; simpl.
      replace (Z.to_nat (Z.of_nat (List.length (Elements first))
                         - Z.of_nat (List.length h)))
        with (List.length (Elements first) - List.length h)%nat by lia.
      repeat split.
      rewrite length_app, repeat_length; unfold gostring in *; lia.
    - intros [= <-]; exists first, rest; simpl.
      replace (List.length (Elements first) - List.length h)%nat with O by lia.
      repeat split; lia. }
  destruct (llen headers <? 1).
  - destruct data as [|row0 data]; [discriminate|].
    unfold sliceFrom1.
    replace (llen (row0 :: data) <? 1) with false
      by (symmetry; apply Z.ltb_ge; unfold llen; simpl List.length; lia).
    simpl; destruct format as [name|]; simpl; apply Hpad.
  - simpl; destruct format as [name|]; simpl; apply Hpad.
Qed.


(** X15: when [Render] gets past its checks, it works on a table with at
    least one data row whose header has at least as many labels as the
    first row has cells: with no header set the first row became the
    header and left the data, and a header shorter than the first data
    row got empty labels in front, so that the given labels stand over
    the last columns.  Nothing else of the table changed but the format,
    when one was named. *)
Theorem renderPrepare_result (g : Globals) (t t' : Tabulate)
    (format : option string) :
  renderPrepare g t format = Ok t' ->
  exists first rest,
    dataSource t = first :: rest
    /\ Data t' = first :: rest
    /\ (List.length (Elements first) <= List.length (Headers t'))%nat
    /\ Headers t'
       = repeat [] (List.length (Elements first)
                    - List.length (headerSource t))
         ++ headerSource t
    /\ Format t' = formatSource g t format
    /\ (Align t', EmptyVar t', HideLines t', MaxSize t', WrapStrings t',
        AutoSize t')
       = (Align t, EmptyVar t, HideLines t, MaxSize t, WrapStrings t,
          AutoSize t).
Proof.
  intros H.
  destruct (renderPrepare_shape _ _ _ _ H) as (first & rest & Hd & Hlen & ->).
  exists first, rest; simpl in *; repeat split; auto.
Qed.

(** X16: A table with a data row left after the header, rendered without
    autosizing, always yields a text: whatever the format name, known to
    the registry or not, and without asking the terminal; with wrapping
    switched on this holds when the maximal cell size admits every
    rune. *)
Theorem Render_returns (g : Globals) (term : termbox) (t : Tabulate)
    (format : option string) :
  noDataRows t = false ->
  AutoSize t = false ->
  (WrapStrings t = true -> fits (MaxSize t)) ->
  exists text t', Render g term t format = Some (Ok (text, t')).
Proof.
  intros Hdata Hauto Hwrap; unfold Render.
  destruct (renderPrepare_rows g t format Hdata) as [t1 Hp]; rewrite Hp.
  destruct (renderPrepare_shape _ _ _ _ Hp) as (first & rest & _ & _ & E).
  assert (Ha : AutoSize t1 = false) by (rewrite E; exact Hauto).
  assert (Hw : WrapStrings t1 = WrapStrings t) by (rewrite E; reflexivity).
  assert (Hm : MaxSize t1 = MaxSize t) by (rewrite E; reflexivity).
  assert (Hd : Data t1 <> []) by (rewrite E; discriminate).
  unfold renderColumns; rewrite Ha, Hw.
  destruct (WrapStrings t) eqn:Ews.
  - destruct (wrapCellData_returns t1 [] Hd) as [out ->].
    { intros row _; unfold capacities; rewrite Ha, Hm; auto. }
    destruct (renderLines_ok g (withData t1 out)
                (getWidths (Headers t1) out)) as (lines & ->).
    eexists _, _; reflexivity.
  - destruct (renderLines_ok g t1 (getWidths (Headers t1) (Data t1)))
      as (lines & ->).
    eexists _, _; reflexivity.
Qed.

(** X17: without autosizing and wrapping, rendering again the table that
    [Render] left gives the same text and leaves the same table, as long
    as that table has a header label. *)
Theorem Render_again (g : Globals) (term : termbox) (t t' : Tabulate)
    (format : option string) (text : gostring) :
  AutoSize t = false ->
  WrapStrings t = false ->
  Headers t' <> [] ->
  Render g term t format = Some (Ok (text, t')) ->
  Render g term t' format = Some (Ok (text, t')).
Proof.
  intros Hauto Hwrap Hh; unfold Render.
  destruct (renderPrepare g t format) as [t1|p] eqn:Hp; [|discriminate].
  destruct (renderPrepare_shape _ _ _ _ Hp) as (first & rest & _ & Hlen & E).
  assert (Ha : AutoSize t1 = false) by (rewrite E; exact Hauto).
  assert (Hw : WrapStrings t1 = false) by (rewrite E; exact Hwrap).
  unfold renderColumns at 1; rewrite Ha, Hw.
  destruct (renderLines g t1 (getWidths (Headers t1) (Data t1)))
    as [text1|p] eqn:Hl; simpl; [|discriminate].
  intros [= <- <-].
  assert (Hagain : renderPrepare g t1 format = Ok t1).
  { clear Hl; unfold renderPrepare.
    assert (H1 : (llen (Headers t1) <? 1) = false).
    { apply Z.ltb_ge; unfold llen.
      destruct (Headers t1); [congruence | simpl List.length; lia]. }
    rewrite H1; simpl.
    assert (Hf : match format with
                 | Some name =>
                     withFormat t1 (lookupFormat (TableFormats g) name)
                 | None => t1
                 end = t1).
    { rewrite E; unfold formatSource; destruct format; reflexivity. }
    rewrite Hf.
    assert (Hd : Data t1 = first :: rest) by (rewrite E; reflexivity).
    rewrite Hd.
    replace (llen (first :: rest) <? 1) with false
      by (symmetry; apply Z.ltb_ge; unfold llen; simpl List.length; lia).
    simpl.
    replace (llen (Headers t1) <? llen (Elements first)) with false
      by (symmetry; apply Z.ltb_ge; unfold llen; lia).
    reflexivity. }
  rewrite Hagain; unfold renderColumns; rewrite Ha, Hw, Hl; reflexivity.
Qed.

(** *** Column widths *)

Lemma fold_left_max_init (l : list Z) (init : Z) :
  init <= fold_left Z.max l init.
Proof.
  revert init; induction l as [|x l IH]; intros init; simpl; [lia|].
  specialize (IH (Z.max init x)); lia.
Qed.

Lemma fold_left_max_elem (l : list Z) (init x : Z) :
  In x l -> x <= fold_left Z.max l init.
Proof.
  revert init; induction l as [|y l IH]; intros init; simpl; [tauto|].
  intros [->|H].
  - pose proof (fold_left_max_init l (Z.max init x)); lia.
  - apply IH; exact H.
Qed.

Lemma getWidthsFrom_length (headers : list gostring)
    (data : list TabulateRow) :
  forall k : nat,
    List.length (getWidthsFrom k headers data) = List.length headers.
Proof. induction headers as [|h hs IH]; intros k; simpl; auto. Qed.

(** X18: [getWidths] gives one width per header label, and the width of a
    column holds its label and every cell that a row has in it, as soon
    as one row has a cell there. *)
Theorem natural_width_holds_cells (headers : list gostring)
    (data : list TabulateRow) (i : nat) (h e : gostring)
    (row : TabulateRow) :
  nth_error headers i = Some h ->
  In row data ->
  nth_error (Elements row) i = Some e ->
  List.length (getWidths headers data) = List.length headers
  /\ exists w,
       nth_error (getWidths headers data) i = Some w
       /\ StringWidth h <= w
       /\ (forall row' e', In row' data ->
                           nth_error (Elements row') i = Some e' ->
                           StringWidth e' <= w).
Proof.
  intros Hh Hrow He; split; [apply getWidthsFrom_length|].
  assert (Hin : forall row' e',
             In row' data -> nth_error (Elements row') i = Some e' ->
             In (StringWidth e') (cellWidths i data)).
  { intros row' e' Hr He'; unfold cellWidths.
    apply in_flat_map; exists row'; split; [exact Hr|].
    rewrite He'; left; reflexivity. }
  assert (Hne : cellWidths i data <> []).
  { intros E; specialize (Hin row e Hrow He); rewrite E in Hin; exact Hin. }
  rewrite (getWidths_column headers data i h Hh Hne).
  eexists; split; [reflexivity|]; split.
  - apply fold_left_max_init.
  - intros row' e' Hr He'; apply fold_left_max_elem; eauto.
Qed.

Lemma shrinkPass_columns (g : Globals) (t : Tabulate)
    (headers : list gostring) (fullWidth totalWidth : Z)
    (averageSize : float64) (cols : list Z) :
  forall (i : nat) (u : Z) (ratio r : float64) (out : list (Z * bool)),
    shrinkPass g t headers fullWidth totalWidth averageSize (Z.of_nat i)
      cols u ratio = Ok (out, r) ->
    List.length out = List.length cols
    /\ forall (j : nat) (col o : Z) (s : bool),
         nth_error cols j = Some col ->
         nth_error out j = Some (o, s) ->
         (s = true /\ o = col)
         \/ (s = false
             /\ (o = col
                 \/ exists h, nth_error headers (i + j) = Some h
                              /\ o = StringWidth h)).
Proof.
  induction cols as [|col0 cols IH]; intros i u ratio r out; simpl.
  - intros [= <- _]; split; [reflexivity|].
    intros [|j]; discriminate.
  - replace (Z.of_nat i + 1) with (Z.of_nat (S i)) by lia.
    destruct (math.ltb (math.of_int col0) averageSize).
    + destruct (shrinkPass _ _ _ _ _ _ (Z.of_nat (S i)) cols _ _)
        as [[out' r']|p] eqn:E; simpl; [|discriminate].
      intros [= <- _]; destruct (IH _ _ _ _ _ E) as [Hlen Hcols].
      split; [simpl; congruence|].
      intros [|j] col o s; simpl.
      * intros [= <-] [= <- <-]; right; auto.
      * intros Hc Ho; replace (i + S j)%nat with (S i + j)%nat by lia.
        eapply Hcols; eassumption.
    + rewrite elemAt_nth.
      destruct (nth_error headers i) as [h|] eqn:Eh; cbn [bind];
        [|discriminate].
      destruct (scale col0 ratio <? StringWidth h).
      * destruct (shrinkPass _ _ _ _ _ _ (Z.of_nat (S i)) cols _ _)
          as [[out' r']|p] eqn:E; simpl; [|discriminate].
        intros [= <- _]; destruct (IH _ _ _ _ _ E) as [Hlen Hcols].
        split; [simpl; congruence|].
        intros [|j] col o s; simpl.
        -- intros [= <-] [= <- <-]; right; split; [reflexivity|].
           right; exists h; rewrite Nat.add_0_r; auto.
        -- intros Hc Ho; replace (i + S j)%nat with (S i + j)%nat by lia.
           eapply Hcols; eassumption.
      * destruct (shrinkPass _ _ _ _ _ _ (Z.of_nat (S i)) cols _ _)
          as [[out' r']|p] eqn:E; simpl; [|discriminate].
        intros [= <- _]; destruct (IH _ _ _ _ _ E) as [Hlen Hcols].
        split; [simpl; congruence|].
        intros [|j] col o s; simpl.
        -- intros [= <-] [= <- <-]; left; auto.
        -- intros Hc Ho; replace (i + S j)%nat with (S i + j)%nat by lia.
           eapply Hcols; eassumption.
Qed.

(** X19: when [autoSize] returns, it returns one width per column, and the
    new width of a column is its width scaled by one ratio, the same for
    all columns, or its width unchanged, or the display width of its
    header label. *)
Theorem autoSize_columns (g : Globals) (term : termbox) (t : Tabulate)
    (headers : list gostring) (cols out : list Z) :
  autoSize g term t headers cols = Ok out ->
  List.length out = List.length cols
  /\ exists ratio : float64,
       forall (j : nat) (col o : Z),
         nth_error cols j = Some col ->
         nth_error out j = Some o ->
         o = scale col ratio
         \/ o = col
         \/ exists h, nth_error headers j = Some h /\ o = StringWidth h.
Proof.
  unfold autoSize.
  destruct term as [err|width height]; [discriminate|].
  destruct (_ <=? _).
  - intros [= <-]; split; [apply length_map|].
    eexists; intros j col o Hc; rewrite nth_error_map, Hc; simpl.
    intros [= <-]; left; reflexivity.
  - destruct (shrinkPass _ _ _ _ _ _ 0 cols 0 _)
      as [[out' r]|p] eqn:E; simpl; [|discriminate].
    destruct (shrinkPass_columns g t headers _ _ _ cols O _ _ _ _ E)
      as [Hlen Hcols].
    intros [= <-]; split; [rewrite length_map; exact Hlen|].
    exists r; intros j col o Hc; rewrite nth_error_map.
    destruct (nth_error out' j) as [[o' s]|] eqn:Eo; simpl; [|discriminate].
    intros [= <-].
    destruct (Hcols j col o' s Hc Eo) as [[-> ->]|[-> H]]; simpl; auto.
Qed.

(** *** A rectangular table *)

Lemma padded_cell (e : gostring) :
  Write (Write (Write [] [space] 1) e 1) [space] 1 = [space] ++ e ++ [space].
Proof.
  unfold Write; simpl; rewrite !app_nil_r; reflexivity.
Qed.

Lemma padded_cell_marker (e : gostring) :
  [space] ++ e ++ [space] = str " nil " -> e = str "nil".
Proof.
  change (str " nil ") with ([space] ++ str "nil" ++ [space]).
  intros H; apply app_inv_head in H; apply app_inv_tail in H; exact H.
Qed.

(** X12: in a table whose format has a padding unit of 1, a fill glyph of one
    column and row delimiters as wide as the border's, with
    [MIN_PADDING] at 2 or more and right or left alignment: a data row
    that has a cell for every header label, none of them the marker
    [nil], is rendered exactly as wide as the border line, over the
    natural widths of the table. *)
Theorem rendered_row_matches_border (g : Globals) (t : Tabulate)
    (headers : list gostring) (data : list TabulateRow) (row : TabulateRow)
    (l : Line) (d : Row) (line : gostring) :
  narrowBlank ->
  nonnegWidths ->
  Align t = [] \/ Align t = str "right" \/ Align t = str "left" ->
  Padding (Format t) = 1 ->
  2 <= MIN_PADDING g ->
  StringWidth (line_hline l) = 1 ->
  StringWidth (line_begin l) = StringWidth (row_begin d) ->
  StringWidth (line_sep l) = StringWidth (row_sep d) ->
  StringWidth (line_end l) = StringWidth (row_end d) ->
  headers <> [] ->
  In row data ->
  List.length (Elements row) = List.length headers ->
  ~ In (str "nil") (Elements row) ->
  (forall col, In col (getWidths headers data) ->
               col + MIN_PADDING g < 2 ^ 63) ->
  buildLine g (paddedWidths g t (getWidths headers data))
    (getWidths headers data) l = Ok line ->
  StringWidth (buildRow t (padRow (Elements row) (Padding (Format t)))
                 (paddedWidths g t (getWidths headers data))
                 (getWidths headers data) d)
  = StringWidth line.
Proof.
  intros Hb Hn Ha Hp Hmin Hh Hbeg Hsep Hend Hne Hrow Hlen Hnil Hbound.
  apply row_border_core; auto.
  - intros E; apply (f_equal (@List.length Z)) in E.
    unfold getWidths in E; rewrite getWidthsFrom_length in E.
    destruct headers; [congruence | discriminate].
  - intros i col Hi.
    assert (Hcol : In col (getWidths headers data))
      by (eapply nth_error_In; exact Hi).
    specialize (Hbound col Hcol).
    assert (Hlt : (i < List.length headers)%nat).
    { unfold getWidths in Hi.
      rewrite <- (getWidthsFrom_length headers data 0).
      apply nth_error_Some; congruence. }
    destruct (nth_error headers i) as [h|] eqn:Eh;
      [|apply nth_error_None in Eh; lia].
    destruct (nth_error (Elements row) i) as [e|] eqn:Ee;
      [|apply nth_error_None in Ee; lia].
    assert (Hin : In (StringWidth e) (cellWidths i data)).
    { unfold cellWidths; apply in_flat_map; exists row; split; [exact Hrow|].
      rewrite Ee; left; reflexivity. }
    assert (Hcw : cellWidths i data <> [])
      by (intros E; rewrite E in Hin; exact Hin).
    rewrite (getWidths_column headers data i h Eh Hcw) in Hi.
    injection Hi as <-.
    pose proof (fold_left_max_elem (cellWidths i data) (StringWidth h) _ Hin)
      as Hmax.
    unfold cellText; rewrite padRow_nth, Ee, Hp; simpl option_map.
    rewrite padded_cell.
    destruct (gostring_eqb ([space] ++ e ++ [space]) (str " nil ")) eqn:Em.
    + apply gostring_eqb_eq, padded_cell_marker in Em; subst e.
      exfalso; apply Hnil; eapply nth_error_In; exact Ee.
    + rewrite !StringWidth_app.
      change (StringWidth [space]) with (RuneWidth space).
      unfold narrowBlank in Hb; rewrite Hb.
      pose proof (StringWidth_nonneg e Hn); lia.
Qed.

End RenderFacts.


(** ** The wrapping pass at its edges *)

Section WrapEdges.
Context {c : Condition}.

Lemma wrapCell_rests (w : Z) (e : gostring) :
  cellRests w e -> wrapCell w e = Ok (e, [], false).
Proof.
  intros [Hnl Hw]; unfold wrapCell.
  assert (E : negb (strings.Index e newline =? -1)
              && (strings.Index e newline <? w) = false).
  { destruct Hnl as [->|Hnl]; [reflexivity|].
    apply andb_false_iff; right; apply Z.ltb_ge; exact Hnl. }
  rewrite E.
  destruct (Z.gtb_spec (StringWidth e) w); [lia | reflexivity].
Qed.

Lemma wrapElements_rests (t : Tabulate) (cols : list Z) (es : list gostring) :
  forall i : nat,
    (forall j cell, nth_error es j = Some cell ->
                    exists w, capacityAt t cols (Z.of_nat (i + j)) = Ok w
                              /\ cellRests w cell) ->
    wrapElements t cols (Z.of_nat i) es
    = Ok (es, repeat [] (List.length es), false).
Proof.
  unfold capacityAt.
  induction es as [|e es IH]; intros i H; simpl; [reflexivity|].
  destruct (H O e eq_refl) as (w & Hw & Hrest).
  rewrite Nat.add_0_r in Hw; rewrite Hw; cbn [bind].
  rewrite (wrapCell_rests _ _ Hrest); cbn [bind].
  replace (Z.of_nat i + 1) with (Z.of_nat (S i)) by lia.
  rewrite IH; [reflexivity|].
  intros j cell Hj; replace (S i + j)%nat with (i + S j)%nat by lia.
  apply H; exact Hj.
Qed.

Lemma wrapRow_rests (t : Tabulate) (cols : list Z) (row : TabulateRow) :
  rowRests t cols row ->
  wrapRow t cols row
  = Ok (row, repeat [] (List.length (Elements row))).
Proof.
  intros [Hc Hcells]; unfold wrapRow.
  change 0 with (Z.of_nat 0).
  rewrite (wrapElements_rests t cols (Elements row) 0 Hcells); cbn [bind].
  destruct row as [es flag]; simpl in *; subst flag; reflexivity.
Qed.

Lemma wrapLoop_rests (t : Tabulate) (cols : list Z) (fuel : nat) :
  Forall (rowRests t cols) (Data t) ->
  forall (i : nat) (next : TabulateRow) (arr : list TabulateRow) (p : panic),
    rowRests t cols next ->
    wrapLoop fuel t cols (Z.of_nat i) next arr <> Some (Panicked p).
Proof.
  intros Hdata.
  induction fuel as [|fuel IH]; intros i next arr p Hnext; simpl wrapLoop;
    (destruct (Z.of_nat i <=? llen (Data t)); [|discriminate]);
    [discriminate|].
  rewrite (wrapRow_rests _ _ _ Hnext).
  destruct Hnext as [Hc Hcells]; rewrite Hc.
  unfold llen.
  destruct (Z.ltb_spec (Z.of_nat i + 1) (Z.of_nat (List.length (Data t)))).
  - replace (Z.of_nat i + 1) with (Z.of_nat (S i)) by lia.
    rewrite elemAt_nth.
    destruct (nth_error (Data t) (S i)) as [d|] eqn:Ed.
    + apply IH; rewrite Forall_forall in Hdata.
      apply Hdata; eapply nth_error_In; exact Ed.
    + apply nth_error_None in Ed; lia.
  - replace (Z.of_nat i + 1) with (Z.of_nat (S i)) by lia.
    destruct (Z.of_nat i >=? Z.of_nat (List.length (Data t)));
      apply IH; split; assumption.
Qed.

(** X4: wrapping leaves alone a table that needs no wrapping: when no row is
    flagged and every cell is within its capacity, with no newline below
    it, the rows come back as they are. *)
Theorem wrapping_idle (t : Tabulate) (cols : list Z) :
  Data t <> [] ->
  Forall (rowRests t cols) (Data t) ->
  wrapCellData t cols = Some (Ok (Data t)).
Proof.
  intros Hne Hdata.
  pose proof (wrapCellData_total t cols) as Htotal.
  destruct (wrapCellData t cols) as [[out|p]|] eqn:Hrun; [| |congruence].
  - destruct (wrapCellData_chains _ _ _ Hrun) as (chunks & -> & Hch).
    do 2 f_equal.
    clear Hrun Htotal Hne.
    induction Hch as [|row l data chunks Hl _ IH]; [reflexivity|].
    inversion Hdata as [|? ? Hrow Hrest]; subst.
    simpl; rewrite (IH Hrest); f_equal.
    pose proof (wrapRow_rests _ _ _ Hrow) as Hr.
    destruct Hrow as [Hc _].
    destruct Hl as [n n' ne Hw Hc'|n n' ne rest Hw Hc' _];
      rewrite Hr in Hw; injection Hw as <- _; [reflexivity | congruence].
  - exfalso; unfold wrapCellData in Hrun.
    change 0 with (Z.of_nat 0) in Hrun; rewrite elemAt_nth in Hrun.
    destruct (nth_error (Data t) 0) as [first|] eqn:En.
    + assert (Hfirst : rowRests t cols first).
      { rewrite Forall_forall in Hdata.
        apply Hdata; eapply nth_error_In; exact En. }
      exact (wrapLoop_rests t cols _ Hdata 0 first [] p Hfirst Hrun).
    + destruct (Data t); [congruence | discriminate].
Qed.

(** *** Panics *)

Lemma truncateLoop_negative (s : gostring) (w acc : Z) :
  nonnegWidths -> w < acc -> truncateLoop s w acc = [].
Proof.
  intros Hn Hw; destruct s as [|x s]; simpl; [reflexivity|].
  specialize (Hn x).
  destruct (Z.gtb_spec (acc + RuneWidth x) w); [reflexivity | lia].
Qed.

(** X5: under a negative capacity the cell loop panics on every cell, the
    empty one included: the truncated head is empty and its last byte is
    sliced. *)
Theorem negative_capacity_panics (w : Z) (e : gostring) :
  nonnegWidths ->
  w < 0 ->
  wrapCell w e = Panicked SliceBoundsOutOfRange.
Proof.
  intros Hn Hw; unfold wrapCell.
  assert (E : negb (strings.Index e newline =? -1)
              && (strings.Index e newline <? w) = false).
  { apply andb_false_iff; right; apply Z.ltb_ge.
    pose proof (Index_range e newline); lia. }
  rewrite E.
  pose proof (StringWidth_nonneg e Hn).
  destruct (Z.gtb_spec (StringWidth e) w); [|lia].
  assert (Htr : Truncate e w [] = []).
  { unfold Truncate.
    destruct (Z.leb_spec (StringWidth e) w); [lia|].
    rewrite app_nil_r; change (StringWidth []) with 0.
    apply truncateLoop_negative; [exact Hn | lia]. }
  rewrite Htr; reflexivity.
Qed.

Lemma wrapElements_short_cols (t : Tabulate) (cols : list Z)
    (es : list gostring) :
  AutoSize t = true ->
  forall i : nat,
    (i <= List.length cols)%nat ->
    (List.length cols < i + List.length es)%nat ->
    exists p, wrapElements t cols (Z.of_nat i) es = Panicked p.
Proof.
  intros Ha; induction es as [|e es IH]; intros i Hi Hlen; simpl.
  - simpl in Hlen; lia.
  - rewrite Ha, elemAt_nth.
    destruct (nth_error cols i) as [w|] eqn:Ew; cbn [bind];
      [|eexists; reflexivity].
    assert (i < List.length cols)%nat by (apply nth_error_Some; congruence).
    destruct (wrapCell w e) as [[[h r] sp]|p]; cbn [bind];
      [|eexists; reflexivity].
    replace (Z.of_nat i + 1) with (Z.of_nat (S i)) by lia.
    destruct (IH (S i)) as [p ->]; [lia | simpl in Hlen; lia|].
    eexists; reflexivity.
Qed.

(** X6: with autosizing on, a table with a row of more cells than there are
    column widths cannot be wrapped: [wrapCellData] panics. *)
Theorem long_row_panics (t : Tabulate) (cols : list Z) (row : TabulateRow) :
  AutoSize t = true ->
  In row (Data t) ->
  (List.length cols < List.length (Elements row))%nat ->
  exists p, wrapCellData t cols = Some (Panicked p).
Proof.
  intros Ha Hrow Hlen.
  pose proof (wrapCellData_total t cols) as Htotal.
  destruct (wrapCellData t cols) as [[out|p]|] eqn:Hrun;
    [|exists p; reflexivity | congruence].
  exfalso.
  destruct (wrapCellData_chains _ _ _ Hrun) as (chunks & _ & Hch).
  destruct (wrapElements_short_cols t cols (Elements row) Ha 0
              ltac:(lia) Hlen) as [p Hp].
  clear Hrun Htotal.
  induction Hch as [|r l data chunks Hl _ IH]; [exact Hrow|].
  destruct Hrow as [->|Hrow]; [|exact (IH Hrow)].
  destruct Hl as [n n' ne Hw _|n n' ne rest Hw _ _];
    unfold wrapRow in Hw; simpl in Hp; rewrite Hp in Hw; discriminate.
Qed.

End WrapEdges.

(** ** The further properties on concrete tables *)

Section ConcreteFurther.
#[local] Existing Instance DefaultCondition.
Import Examples.

Lemma DefaultCondition_nonneg : nonnegWidths.
Proof. intros r; simpl; destruct (zeroWidthRune r), (wideRune r); lia. Qed.

Lemma DefaultCondition_within : widthWithinBytes.
Proof.
  intros r; simpl; unfold utf8.RuneLen.
  destruct (zeroWidthRune r);
    [destruct (r <? 128), (r <? 2048), (r <? 65536); lia|].
  destruct (wideRune r) eqn:E.
  - unfold wideRune in E; apply andb_true_iff in E as [E _].
    apply Z.leb_le in E.
    destruct (Z.ltb_spec r 128); [lia|].
    destruct (Z.ltb_spec r 2048); [lia|].
    destruct (r <? 65536); lia.
  - destruct (r <? 128); [lia|].
    destruct (r <? 2048); [lia|].
    destruct (r <? 65536); lia.
Qed.

Lemma DefaultCondition_blank : narrowBlank.
Proof. reflexivity. Qed.

Lemma wrapped_cells_fit_witness :
  Forall (rowFits twoWords [])
    [mkTabulateRow [str "aaaa "] true; mkTabulateRow [str "bbbb"] false].
Proof.
  apply (wrapped_cells_fit twoWords []).
  - exact DefaultCondition_nonneg.
  - exact DefaultCondition_within.
  - reflexivity.
Defined.

Lemma wrapping_keeps_text_witness :
  exists chunks,
    map (readRow (snd twoWordsWrapped)) (fst twoWordsWrapped)
    = List.concat chunks
    /\ Forall2 (fun row l => map strip (stack (map Elements l))
                             = map strip (Elements row))
         (Data twoWords) chunks.
Proof.
  apply (wrapping_keeps_text twoWords []
           (fst twoWordsStore) (fst twoWordsWrapped)
           (snd twoWordsStore) (snd twoWordsWrapped));
    reflexivity.
Defined.

Lemma wrapping_keeps_columns_witness :
  (List.length (Data twoWords) <= 2)%nat
  /\ exists chunks,
       [mkTabulateRow [str "aaaa "] true; mkTabulateRow [str "bbbb"] false]
       = List.concat chunks
       /\ Forall2 (fun row l =>
                     l <> []
                     /\ Forall (fun r => List.length (Elements r)
                                         = List.length (Elements row)) l)
            (Data twoWords) chunks.
Proof.
  apply (wrapping_keeps_columns twoWords []
           [mkTabulateRow [str "aaaa "] true;
            mkTabulateRow [str "bbbb"] false]).
  reflexivity.
Defined.

Lemma padLeft_padRight_width_witness :
  StringWidth (padLeft 3 (str "hello")) = Z.max 3 (StringWidth (str "hello"))
  /\ StringWidth (padRight 3 (str "hello"))
     = Z.max 3 (StringWidth (str "hello"))
  /\ (3 <= StringWidth (str "hello") ->
      padLeft 3 (str "hello") = str "hello"
      /\ padRight 3 (str "hello") = str "hello").
Proof.
  apply (padLeft_padRight_width 3 (str "hello")).
  - exact DefaultCondition_blank.
  - vm_compute; split; (discriminate || reflexivity).
Defined.

Lemma buildRow_drops_extra_cells_witness :
  List.length (rowCells twoWords ([str "a"] ++ [str "b"]) [9] 0)
  = List.length [9]
  /\ buildRow twoWords ([str "a"] ++ [str "b"]) [9] [4] (DataRow grid)
     = buildRow twoWords [str "a"] [9] [4] (DataRow grid).
Proof.
  apply (buildRow_drops_extra_cells twoWords [str "a"] [str "b"] [9] [4]).
  simpl; lia.
Defined.

Lemma buildRow_width_witness :
  StringWidth (buildRow withPlaceholder [str " ab "] [9] [4] (DataRow grid))
  = StringWidth (row_begin (DataRow grid)) + sumZ [9]
    + (Z.of_nat (List.length [9]) - 1) * StringWidth (row_sep (DataRow grid))
    + StringWidth (row_end (DataRow grid)).
Proof.
  apply (buildRow_width withPlaceholder [str " ab "] [9] [4] (DataRow grid)).
  - exact DefaultCondition_blank.
  - left; reflexivity.
  - discriminate.
  - intros [|[|i]] w; simpl; try discriminate.
    intros [= <-]; vm_compute; repeat split; (discriminate || reflexivity).
Defined.

Lemma rendered_row_matches_border_witness :
  StringWidth (buildRow jonSnowGrid
                 (padRow [str "Jon Snow"; str "Winterfell"]
                    (Padding (Format jonSnowGrid)))
                 (paddedWidths initGlobals jonSnowGrid
                    (getWidths (Headers jonSnow) (Data jonSnow)))
                 (getWidths (Headers jonSnow) (Data jonSnow))
                 (DataRow grid))
  = StringWidth (str "+-------------+---------------+").
Proof.
  apply (rendered_row_matches_border initGlobals jonSnowGrid
           (Headers jonSnow) (Data jonSnow)
           (mkTabulateRow [str "Jon Snow"; str "Winterfell"] false)
           (LineTop grid) (DataRow grid)); try reflexivity.
  - exact DefaultCondition_nonneg.
  - left; reflexivity.
  - vm_compute; discriminate.
  - discriminate.
  - left; reflexivity.
  - vm_compute; intuition discriminate.
  - intros col H; vm_compute in H.
    destruct H as [<-|[<-|[]]]; reflexivity.
Defined.

Lemma bottom_border_kept_witness :
  exists above line,
    buildLine initGlobals (paddedWidths initGlobals jonSnowGrid [8; 10])
      [8; 10] (LineBottom (Format jonSnowGrid)) = Ok line
    /\ renderLines initGlobals (SetHideLines jonSnowGrid [str "bottom"])
         [8; 10]
       = Ok (above ++ line ++ [newline]).
Proof.
  apply (bottom_border_kept initGlobals jonSnowGrid [8; 10] [str "bottom"]).
  vm_compute; intuition discriminate.
Defined.

Lemma renderPrepare_result_witness :
  exists first rest,
    dataSource oneLabel = first :: rest
    /\ Data oneLabel = first :: rest
    /\ (List.length (Elements first) <= 3)%nat
    /\ [[]; []; str "Last"]
       = repeat [] (List.length (Elements first)
                    - List.length (headerSource oneLabel))
         ++ headerSource oneLabel
    /\ Format oneLabel = formatSource initGlobals oneLabel None
    /\ (Align oneLabel, EmptyVar oneLabel, HideLines oneLabel,
        MaxSize oneLabel, WrapStrings oneLabel, AutoSize oneLabel)
       = (Align oneLabel, EmptyVar oneLabel, HideLines oneLabel,
          MaxSize oneLabel, WrapStrings oneLabel, AutoSize oneLabel).
Proof.
  apply (renderPrepare_result initGlobals oneLabel
           (withHeaders oneLabel [[]; []; str "Last"]) None).
  reflexivity.
Defined.

Lemma Render_returns_witness :
  exists text t',
    Render initGlobals (InitError "no terminal") fitting
      (Some "no such format"%string)
    = Some (Ok (text, t')).
Proof.
  apply (Render_returns initGlobals (InitError "no terminal") fitting
           (Some "no such format"%string)).
  - reflexivity.
  - reflexivity.
  - intros _; split; [vm_compute; discriminate|].
    intros r; simpl; destruct (zeroWidthRune r), (wideRune r); lia.
Defined.

Lemma Render_again_witness :
  Render initGlobals (Size 80 24) (snd jonSnowRendered) (Some "grid"%string)
  = Some (Ok (fst jonSnowRendered, snd jonSnowRendered)).
Proof.
  apply (Render_again initGlobals (Size 80 24) jonSnow (snd jonSnowRendered)
           (Some "grid"%string) (fst jonSnowRendered)).
  - reflexivity.
  - reflexivity.
  - discriminate.
  - vm_compute; reflexivity.
Defined.

Lemma natural_width_holds_cells_witness :
  List.length (getWidths shortRowHeaders shortRows)
  = List.length shortRowHeaders
  /\ exists w,
       nth_error (getWidths shortRowHeaders shortRows) 0 = Some w
       /\ StringWidth (str "Name") <= w
       /\ (forall row' e', In row' shortRows ->
                           nth_error (Elements row') 0 = Some e' ->
                           StringWidth e' <= w).
Proof.
  apply (natural_width_holds_cells shortRowHeaders shortRows 0
           (str "Name") (str "x") (mkTabulateRow [str "x"] false)).
  - reflexivity.
  - left; reflexivity.
  - reflexivity.
Defined.

Lemma autoSize_columns_witness :
  List.length [46; 2; 2; 2; 46]
  = List.length (getWidths wideHeaders (Data (snd wide)))
  /\ exists ratio : float64,
       forall (j : nat) (col o : Z),
         nth_error (getWidths wideHeaders (Data (snd wide))) j = Some col ->
         nth_error [46; 2; 2; 2; 46] j = Some o ->
         o = scale col ratio
         \/ o = col
         \/ exists h, nth_error wideHeaders j = Some h /\ o = StringWidth h.
Proof.
  apply (autoSize_columns (fst wide) terminal117 (snd wide) wideHeaders).
  vm_compute; reflexivity.
Defined.

Lemma wrapping_idle_witness :
  wrapCellData fitting [] = Some (Ok (Data fitting)).
Proof.
  apply (wrapping_idle fitting []).
  - discriminate.
  - apply Forall_forall.
    intros row [<-|[<-|[]]]; (split; [reflexivity|]);
      intros [|[|[|j]]] cell; simpl; try discriminate;
      intros [= <-]; exists 30; (split; [reflexivity|]);
      (split; [left; reflexivity | vm_compute; discriminate]).
Defined.

Lemma negative_capacity_panics_witness :
  wrapCell (-1) (str "abc") = Panicked SliceBoundsOutOfRange.
Proof.
  apply (negative_capacity_panics (-1) (str "abc")).
  - exact DefaultCondition_nonneg.
  - reflexivity.
Defined.

Lemma long_row_panics_witness :
  exists p, wrapCellData (snd autosized) [5] = Some (Panicked p).
Proof.
  apply (long_row_panics (snd autosized) [5]
           (mkTabulateRow [str "Jon Snow"; str "Winterfell"] false)).
  - reflexivity.
  - left; reflexivity.
  - simpl; lia.
Defined.

End ConcreteFurther.
